(** * charge-lnd: policy matching and rule resolution

    A shallow embedding of [charge_lnd/policy.py]: the identifier list
    loaders, the [Policy] accumulator, and the [Policies] resolver with its
    namespace dispatcher, node matcher, channel matcher and activity-period
    parser.

    Conventions of the embedding.
    - A Python [str] is a [string]; every character is read as the code
      point of the same number, so the model covers code points below 256.
    - A Python [int] is a [Z]; a Python [float] is a binary64 value of
      [spec_float] (precision 53, maximal exponent 1024).
    - A function that can raise, write to stderr or call the node gateway
      is a computation in [M]: it yields the events it produced, in order,
      and either a value or the exception it raised.
    - A configuration section (configparser's section proxy) is the list of
      its (key, value) pairs in file order; keys are unique there.
    - [Policy.config], a Python dict, is a [gmap string string].
    - The builtins [int] and [float] and configparser's [getboolean] are
      written out after the Python reference: [int] and [float] skip the
      blanks TAB..CR, space, NEL and NBSP around the number and no others,
      and [int] refuses a text of more than 4300 digits, the interpreter's
      default for [sys.int_max_str_digits].
    - The node gateway, the files, the channel-id formatter [fmt] and the
      [list] converter of the configuration provider live outside
      [policy.py] and are parameters ([Lnd], [World]).  For a path, the
      world says whether [open] and [read] fail with OSError, whether the
      bytes fail to decode, or what the text is; a path with a NUL
      character is refused by [open] itself. *)

From Stdlib Require Import ZArith NArith String Ascii List Bool Lia.
From Stdlib Require Import Floats.SpecFloat.
From stdpp Require Import gmap strings.

Local Open Scope Z_scope.

(** ** Python strings *)

Module PyStr.

Definition ord (c : ascii) : N := N_of_ascii c.

Definition LF : ascii := ascii_of_N 10.
Definition CR : ascii := ascii_of_N 13.

(** [str.isspace] on one character: TAB..CR, FS..US, space, NEL, NBSP. *)
Definition isspace (c : ascii) : bool :=
  let n := ord c in
  ((9 <=? n) && (n <=? 13) || (28 <=? n) && (n <=? 32) || (n =? 133) || (n =? 160))%N.

(** The line boundaries of [str.splitlines]: LF, VT, FF, CR, FS, GS, RS, NEL. *)
Definition is_linebreak (c : ascii) : bool :=
  let n := ord c in
  ((10 <=? n) && (n <=? 13) || (28 <=? n) && (n <=? 30) || (n =? 133))%N.

Definition isdigit (c : ascii) : bool :=
  let n := ord c in ((48 <=? n) && (n <=? 57))%N.

Definition islower_az (c : ascii) : bool :=
  let n := ord c in ((97 <=? n) && (n <=? 122))%N.

Definition lower_char (c : ascii) : ascii :=
  let n := ord c in
  if ((65 <=? n) && (n <=? 90))%N then ascii_of_N (n + 32) else c.

Fixpoint lower (s : string) : string :=
  match s with
  | EmptyString => EmptyString
  | String c r => String (lower_char c) (lower r)
  end.

Fixpoint lstrip (s : string) : string :=
  match s with
  | EmptyString => EmptyString
  | String c r => if isspace c then lstrip r else s
  end.

Fixpoint rstrip (s : string) : string :=
  match s with
  | EmptyString => EmptyString
  | String c r =>
      match rstrip r with
      | EmptyString => if isspace c then EmptyString else String c EmptyString
      | r' => String c r'
      end
  end.

(** [s.strip()] *)
Definition strip (s : string) : string := rstrip (lstrip s).

(** [s.split(d)] for a one-character separator [d]. *)
Fixpoint split (d : ascii) (s : string) : list string :=
  match s with
  | EmptyString => [EmptyString]
  | String c r =>
      if Ascii.eqb c d then EmptyString :: split d r
      else match split d r with
           | h :: t => String c h :: t
           | [] => [String c EmptyString]
           end
  end.

(** [s.replace(a, b)] for one-character [a] and [b]. *)
Fixpoint replace_char (a b : ascii) (s : string) : string :=
  match s with
  | EmptyString => EmptyString
  | String c r => String (if Ascii.eqb c a then b else c) (replace_char a b r)
  end.

(** [s.startswith(p)] *)
Definition startswith (p s : string) : bool := String.prefix p s.

(** [s.replace(p, "")] for a non-empty [p]: every occurrence of [p], scanning
    from the left without overlap, is removed.  [skip] counts the characters
    of the current occurrence that are still to be dropped. *)
Fixpoint remove_aux (p : string) (skip : nat) (s : string) : string :=
  match s with
  | EmptyString => EmptyString
  | String c r =>
      match skip with
      | S k => remove_aux p k r
      | O => if String.prefix p s
             then remove_aux p (Nat.pred (String.length p)) r
             else String c (remove_aux p O r)
      end
  end.

Definition remove (p s : string) : string := remove_aux p O s.

(** [s.splitlines()]: a line ends at a line boundary, CR LF counts as one,
    and a last line without a boundary is kept only when it is not empty. *)
Fixpoint splitlines (s : string) : list string :=
  match s with
  | EmptyString => []
  | String c r =>
      if is_linebreak c then
        EmptyString ::
          match r with
          | String c2 r2 =>
              if Ascii.eqb c CR && Ascii.eqb c2 LF then splitlines r2 else splitlines r
          | EmptyString => []
          end
      else
        match splitlines r with
        | h :: t => String c h :: t
        | [] => [String c EmptyString]
        end
  end.

(** [s[-1]]: the last character, [None] for the empty string (IndexError). *)
Fixpoint last_char (s : string) : option ascii :=
  match s with
  | EmptyString => None
  | String c EmptyString => Some c
  | String _ r => last_char r
  end.

(** [s[:-1]]: everything but the last character. *)
Fixpoint but_last (s : string) : string :=
  match s with
  | EmptyString => EmptyString
  | String _ EmptyString => EmptyString
  | String c r => String c (but_last r)
  end.

Fixpoint forallb_str (f : ascii -> bool) (s : string) : bool :=
  match s with
  | EmptyString => true
  | String c r => f c && forallb_str f r
  end.

End PyStr.

(** ** Python numbers *)

Module PyNum.

Import PyStr.

(** Python floats are binary64. *)
Definition prec : Z := 53.
Definition emax : Z := 1024.
Definition float : Type := spec_float.

Definition float_leb : float -> float -> bool := SFleb.
Definition float_eqb : float -> float -> bool := SFeqb.
Definition float_div : float -> float -> float := SFdiv prec emax.

(** An integer as an exact (not normalised) binary value; [float_div] and
    [binary_normalize] round it. *)
Definition Z2SF (z : Z) : float :=
  match z with
  | Z0 => S754_zero false
  | Zpos p => S754_finite false p 0
  | Zneg p => S754_finite true p 0
  end.

Definition is_infinity (x : float) : bool :=
  match x with S754_infinity _ => true | _ => false end.

Definition digit_val (c : ascii) : option Z :=
  if isdigit c then Some (Z.of_N (ord c) - 48) else None.

(** A run of decimal digits in which single underscores may separate digits
    (PEP 515).  [prev] tells whether the previous character was a digit. *)
Fixpoint digits_value (acc : Z) (prev : bool) (s : string) : option Z :=
  match s with
  | EmptyString => if prev then Some acc else None
  | String c r =>
      if Ascii.eqb c "_" then (if prev then digits_value acc false r else None)
      else match digit_val c with
           | Some d => digits_value (10 * acc + d) true r
           | None => None
           end
  end.

(** The blanks that [int] and [float] skip at both ends of their text:
    TAB..CR, space, NEL and NBSP.  FS..US, which [str.strip] cuts as well,
    are not among them. *)
Definition number_space (c : ascii) : bool :=
  let n := ord c in
  ((9 <=? n) && (n <=? 13) || (n =? 32) || (n =? 133) || (n =? 160))%N.

Fixpoint skip_blanks (s : string) : string :=
  match s with
  | EmptyString => EmptyString
  | String c r => if number_space c then skip_blanks r else s
  end.

Fixpoint drop_blanks_at_end (s : string) : string :=
  match s with
  | EmptyString => EmptyString
  | String c r =>
      match drop_blanks_at_end r with
      | EmptyString => if number_space c then EmptyString else String c EmptyString
      | r' => String c r'
      end
  end.

(** The text of a number without the blanks around it. *)
Definition number_text (s : string) : string := drop_blanks_at_end (skip_blanks s).

(** [sys.int_max_str_digits] as the interpreter sets it: a decimal text of
    more digits is refused by [int]. *)
Definition int_max_str_digits : Z := 4300.

(** The digits of a text; separators do not count, leading zeros do. *)
Fixpoint count_digits (s : string) : Z :=
  match s with
  | EmptyString => 0
  | String c r => (if isdigit c then 1 else 0) + count_digits r
  end.

(** The digits of [int], after the sign. *)
Definition int_digits (s : string) : option Z :=
  match digits_value 0 false s with
  | Some n => if count_digits s <=? int_max_str_digits then Some n else None
  | None => None
  end.

(** [int(s)] in base 10; [None] is ValueError. *)
Definition py_int (s : string) : option Z :=
  match number_text s with
  | String "+" r => int_digits r
  | String "-" r => option_map Z.opp (int_digits r)
  | t => int_digits t
  end.

(** The value [m * 10^e], rounded to nearest even. *)
Definition float_of_decimal (neg : bool) (m : Z) (e : Z) : float :=
  match m with
  | Z0 => S754_zero neg
  | _ =>
      let sm := if neg then Z.opp (Z.abs m) else Z.abs m in
      if 0 <=? e then binary_normalize prec emax (sm * 10 ^ e) 0 neg
      else float_div (Z2SF sm) (Z2SF (10 ^ (- e)))
  end.

(** Digits of a mantissa part: value and number of digits; underscores have
    been removed before. *)
Fixpoint plain_digits (acc : Z) (n : Z) (s : string) : Z * Z * string :=
  match s with
  | EmptyString => (acc, n, s)
  | String c r =>
      match digit_val c with
      | Some d => plain_digits (10 * acc + d) (n + 1) r
      | None => (acc, n, s)
      end
  end.

(** The underscore rule of [float]: an underscore stands between two digits.
    Returns the text without underscores. *)
Fixpoint drop_underscores (prev : ascii) (s : string) : option string :=
  match s with
  | EmptyString => if Ascii.eqb prev "_" then None else Some EmptyString
  | String c r =>
      if Ascii.eqb c "_" then
        if isdigit prev then drop_underscores c r else None
      else if Ascii.eqb prev "_" && negb (isdigit c) then None
      else option_map (String c) (drop_underscores c r)
  end.

Definition parse_exponent (s : string) : option Z :=
  match s with
  | EmptyString => Some 0
  | String c r =>
      if Ascii.eqb c "e" || Ascii.eqb c "E" then
        match r with
        | String "+" d => match plain_digits 0 0 d with
                          | (v, n, EmptyString) => if 0 <? n then Some v else None
                          | _ => None
                          end
        | String "-" d => match plain_digits 0 0 d with
                          | (v, n, EmptyString) => if 0 <? n then Some (- v) else None
                          | _ => None
                          end
        | d => match plain_digits 0 0 d with
               | (v, n, EmptyString) => if 0 <? n then Some v else None
               | _ => None
               end
        end
      else None
  end.

Definition parse_unsigned_float (neg : bool) (s : string) : option float :=
  let l := lower s in
  if String.eqb l "inf" || String.eqb l "infinity" then Some (S754_infinity neg)
  else if String.eqb l "nan" then Some S754_nan
  else
    let '(ip, ni, rest) := plain_digits 0 0 s in
    let '(m, nf, rest') :=
      match rest with
      | String "." f => let '(fp, nf, rest') := plain_digits ip 0 f in (fp, nf, rest')
      | _ => (ip, 0, rest)
      end in
    if 0 <? ni + nf then
      match parse_exponent rest' with
      | Some e => Some (float_of_decimal neg m (e - nf))
      | None => None
      end
    else None.

(** [float(s)]; [None] is ValueError. *)
Definition py_float (s : string) : option float :=
  match drop_underscores " " (number_text s) with
  | None => None
  | Some t =>
      match t with
      | String "+" r => parse_unsigned_float false r
      | String "-" r => parse_unsigned_float true r
      | _ => parse_unsigned_float false t
      end
  end.

(** configparser's [getboolean]: the table of boolean states, on the
    lower-cased value; [None] is ValueError. *)
Definition py_boolean (s : string) : option bool :=
  let l := lower s in
  if String.eqb l "1" || String.eqb l "yes" || String.eqb l "true" || String.eqb l "on"
  then Some true
  else if String.eqb l "0" || String.eqb l "no" || String.eqb l "false" || String.eqb l "off"
  then Some false
  else None.

End PyNum.

(** ** Exceptions, events and the computation monad *)

Variant exn :=
| UnknownProperty (key : string)   (* [Exception("Unknown property '%s'" % key)] *)
| IndexError                       (* a list or string index out of range *)
| KeyError (key : string)          (* a missing dict key *)
| ValueError (text : string)       (* [int], [float], [getboolean] or [open] on bad text *)
| TypeError                        (* comparing the [None] of a missing option *)
| ZeroDivisionError
| OverflowError                    (* an int quotient too large for a float *)
| OSError (path : string)          (* [open] failed *)
| UnicodeDecodeError (path : string) (* [read] on bytes that are no text *)
| ChannelIdError (text : string).  (* [fmt.parse_channel_id] failed *)

(** [LookupError] is the base class of [IndexError] and [KeyError]. *)
Definition is_LookupError (e : exn) : bool :=
  match e with
  | IndexError | KeyError _ => true
  | _ => false
  end.

(** What [debug] writes to stderr. *)
Variant message :=
| IgnoredPubkey (raw_id url : string)
| IgnoredChanId (raw_id url : string)
| UnknownNamespace (ns policy : string)
| ErrorEvaluating (chan_id : Z) (e : exn).

(** The observable steps of a run: lines on stderr and gateway calls. *)
Variant event :=
| Debug (m : message)
| GetNodeInfo (pubkey : string)
| GetChanInfo (chan_id : Z)
| GetOwnPubkey
| GetInfo
| GetForwardHistory (chan_id seconds : Z).

Variant result (A : Type) :=
| Ok (a : A)
| Raise (e : exn).
Arguments Ok {A} a.
Arguments Raise {A} e.

Definition M (A : Type) : Type := list event * result A.

Definition ret {A} (a : A) : M A := ([], Ok a).
Definition raise {A} (e : exn) : M A := ([], Raise e).
Definition emit (ev : event) : M unit := ([ev], Ok tt).
Definition debug (m : message) : M unit := emit (Debug m).

Definition bind {A B} (m : M A) (f : A -> M B) : M B :=
  match m with
  | (t, Ok a) => let '(t', r) := f a in (t ++ t', r)
  | (t, Raise e) => (t, Raise e)
  end.

Notation "x <- m ;; k" := (bind m (fun x => k))
  (at level 20, m at level 99, k at level 200).
Notation "'run' m ;; k" := (bind m (fun _ => k))
  (at level 20, m at level 99, k at level 200).

(** A value or, for [None], the given exception. *)
Definition or_raise {A} (o : option A) (e : exn) : M A :=
  match o with
  | Some a => ret a
  | None => raise e
  end.

(** [try: body except Exception as e: handler(e)] *)
Definition try_except {A} (body : M A) (handler : exn -> M A) : M A :=
  match body with
  | (t, Ok a) => (t, Ok a)
  | (t, Raise e) => let '(t', r) := handler e in (t ++ t', r)
  end.

Definition trace {A} (m : M A) : list event := fst m.
Definition outcome {A} (m : M A) : result A := snd m.

(** [if c: return False], followed by the rest of the function. *)
Definition return_False_if (c : M bool) (k : M bool) : M bool :=
  b <- c ;; if b then ret false else k.

Notation "'return_False_when' c ;; k" := (return_False_if c k)
  (at level 20, c at level 99, k at level 200).

(** ** Data model *)

(** A Raw Policy Section: configparser's view of one section. *)
Definition section : Type := list (string * string).

(** A channel record of the node gateway. *)
Record Channel := {
  remote_pubkey : string;
  chan_id : Z;
  capacity : Z;
  local_balance : Z;
  remote_balance : Z;
  initiator : bool;
  private : bool
}.

Record NodeInfo := {
  num_channels : Z;
  total_capacity : Z
}.

Record RoutingPolicy := {
  fee_base_msat : Z;
  fee_rate_milli_msat : Z
}.

Record ChanInfo := {
  node1_pub : string;
  node2_pub : string;
  node1_policy : RoutingPolicy;
  node2_policy : RoutingPolicy
}.

Record Info := {
  block_height : Z
}.

(** The dict of [get_forward_history]. *)
Record Forwards := {
  htlc_in : Z;
  htlc_out : Z;
  sat_in : Z;
  sat_out : Z
}.

(** The node gateway [lnd] as a snapshot: what each call answers. *)
Record Lnd := {
  lnd_node_info : string -> NodeInfo;
  lnd_chan_info : Z -> option ChanInfo;
  lnd_own_pubkey : string;
  lnd_info : option Info;
  lnd_forward_history : Z -> Z -> Forwards
}.

(** What [open] and [read] find at a path: a failure of the operating
    system, bytes that do not decode, or the text of the file. *)
Variant file :=
| Inaccessible              (* [open] or [read] raises OSError *)
| Undecodable               (* [read] raises UnicodeDecodeError *)
| Readable (text : string).

(** The collaborators that are not part of [policy.py]: the files [open]
    can read, the channel-id formatter [fmt], and the [list] converter the
    configuration provider registers for [getlist]. *)
Record World := {
  file_contents : string -> file;
  parse_channel_id : string -> option Z;
  lnd_to_cl_scid : Z -> Z * Z * Z;
  list_converter : string -> list string
}.

(** The configuration provider: policy names with their sections, in
    declaration order, and the optional default section. *)
Record Config := {
  policies : list (string * section);
  default : option section
}.

(** ** Section accessors *)

(** [config.keys()] *)
Definition keys (config : section) : list string := map fst config.

(** [config.get(key)] *)
Fixpoint sec_get (config : section) (key : string) : option string :=
  match config with
  | [] => None
  | (k, v) :: rest => if String.eqb k key then Some v else sec_get rest key
  end.

(** [key in config] *)
Definition has (config : section) (key : string) : bool :=
  match sec_get config key with Some _ => true | None => false end.

(** [config.get(key)] as a string.  Every use in the source is guarded by
    [key in config]; without the guard the accessor would hand back [None],
    which the next operation rejects. *)
Definition get (config : section) (key : string) : M string :=
  or_raise (sec_get config key) TypeError.

Definition getint (config : section) (key : string) : M Z :=
  v <- get config key ;; or_raise (PyNum.py_int v) (ValueError v).

Definition getfloat (config : section) (key : string) : M PyNum.float :=
  v <- get config key ;; or_raise (PyNum.py_float v) (ValueError v).

Definition getboolean (config : section) (key : string) : M bool :=
  v <- get config key ;; or_raise (PyNum.py_boolean v) (ValueError v).

Definition getlist (w : World) (config : section) (key : string) : M (list string) :=
  v <- get config key ;; ret (list_converter w v).

(** ** Identifier list loaders *)

Import PyStr PyNum.

(** A path with a NUL character, which [open] refuses with ValueError
    before it looks at the file system. *)
Definition has_nul (path : string) : bool :=
  negb (forallb_str (fun c => negb (Ascii.eqb c Ascii.zero)) path).

(** [open(url.replace("file://",""),'r')] and [idfile.read()] *)
Definition open_read (w : World) (url : string) : M string :=
  let path := remove "file://" url in
  if has_nul path then raise (ValueError path)
  else match file_contents w path with
       | Inaccessible => raise (OSError path)
       | Undecodable => raise (UnicodeDecodeError path)
       | Readable text => ret text
       end.

(** [idfile.read().replace(',','\n').splitlines()] *)
Definition raw_ids_of (text : string) : list string :=
  splitlines (replace_char "," LF text).

(** [raw_id.split('#')[0].strip()]; [split] never returns an empty list. *)
Definition clean_raw_id (raw_id : string) : string :=
  strip (hd EmptyString (split "#" raw_id)).

(** The first [n] characters of [s] when all of them satisfy [f], with the
    rest of [s]. *)
Fixpoint take_class (f : ascii -> bool) (n : nat) (s : string) : option (string * string) :=
  match n with
  | O => Some (EmptyString, s)
  | S k =>
      match s with
      | String c r =>
          if f c then
            match take_class f k r with
            | Some (t, rest) => Some (String c t, rest)
            | None => None
            end
          else None
      | EmptyString => None
      end
  end.

(** The character class [[0-9a-z]] of the pubkey pattern. *)
Definition pubkey_char (c : ascii) : bool := isdigit c || islower_az c.

(** [re.match("^([0-9a-z]{66})$", raw_id)], giving [match.group(0)].  [$]
    matches at the end of the text and before a line feed that ends it. *)
Definition match_pubkey (raw_id : string) : option string :=
  match take_class pubkey_char 66 raw_id with
  | Some (t, rest) =>
      if String.eqb rest EmptyString || String.eqb rest (String LF EmptyString)
      then Some t else None
  | None => None
  end.

Fixpoint read_nodelist_loop (url : string) (raw_ids : list string)
    (node_list : list string) : M (list string) :=
  match raw_ids with
  | [] => ret node_list
  | raw_id :: rest =>
      let raw_id := clean_raw_id raw_id in
      match match_pubkey raw_id with
      | Some group0 => read_nodelist_loop url rest (node_list ++ [group0])
      | None =>
          if String.eqb (strip raw_id) EmptyString
          then read_nodelist_loop url rest node_list
          else run debug (IgnoredPubkey raw_id url) ;;
               read_nodelist_loop url rest node_list
      end
  end.

Definition read_nodelist (w : World) (url : string) : M (list string) :=
  text <- open_read w url ;;
  read_nodelist_loop url (raw_ids_of text) [].

Fixpoint read_chanlist_loop (w : World) (url : string) (raw_ids : list string)
    (chan_list : list Z) : M (list Z) :=
  match raw_ids with
  | [] => ret chan_list
  | raw_id :: rest =>
      let raw_id := clean_raw_id raw_id in
      match parse_channel_id w raw_id with
      | Some chan_id => read_chanlist_loop w url rest (chan_list ++ [chan_id])
      | None =>
          if String.eqb (strip raw_id) EmptyString
          then read_chanlist_loop w url rest chan_list
          else run debug (IgnoredChanId raw_id url) ;;
               read_chanlist_loop w url rest chan_list
      end
  end.

Definition read_chanlist (w : World) (url : string) : M (list Z) :=
  text <- open_read w url ;;
  read_chanlist_loop w url (raw_ids_of text) [].

(** ** class Policy *)

Module Policy.

(** The strategy handle; it refers back to the policy that holds it. *)
Variant StrategyDelegate := StrategyDelegate_of_self.

Record t := {
  strategy : option StrategyDelegate;
  name : option string;
  config : gmap string string
}.

(** [Policy(lnd)] *)
Definition init : t :=
  {| strategy := None; name := None; config := ∅ |}.

(** [for k,v in policy_config.items(): self.config[k] = v] *)
Definition mask (collected : gmap string string) (policy_config : section)
    : gmap string string :=
  fold_left (fun m kv => <[fst kv := snd kv]> m) policy_config collected.

(** The truth value of [policy_config.get('strategy')]. *)
Definition strategy_of (policy_config : section) : bool :=
  match sec_get policy_config "strategy" with
  | Some v => negb (String.eqb v EmptyString)
  | None => false
  end.

(** [apply]: the policy after the call, and the returned flag. *)
Definition apply (self : t) (policy_name : string) (policy_config : section) : t * bool :=
  let config' := mask (config self) policy_config in
  if strategy_of policy_config then
    ({| strategy := Some StrategyDelegate_of_self;
        name := Some policy_name;
        config := config' |}, true)
  else
    ({| strategy := strategy self; name := name self; config := config' |}, false).

End Policy.

(** ** class Policies *)

Module Policies.

Section WithGateway.

Variable w : World.
Variable lnd : Lnd.

(** Gateway calls, each leaving its event. *)
Definition get_node_info (pubkey : string) : M NodeInfo :=
  run emit (GetNodeInfo pubkey) ;; ret (lnd_node_info lnd pubkey).
Definition get_chan_info (chan_id : Z) : M (option ChanInfo) :=
  run emit (GetChanInfo chan_id) ;; ret (lnd_chan_info lnd chan_id).
Definition get_own_pubkey : M string :=
  run emit GetOwnPubkey ;; ret (lnd_own_pubkey lnd).
Definition get_info : M (option Info) :=
  run emit GetInfo ;; ret (lnd_info lnd).
Definition get_forward_history (chan_id seconds : Z) : M Forwards :=
  run emit (GetForwardHistory chan_id seconds) ;;
  ret (lnd_forward_history lnd chan_id seconds).

(** [for key in config.keys():
       if key.split(".")[0] == ns and key.split(".")[1] not in accepted:
         raise Exception("Unknown property '%s'" % key)] *)
Fixpoint check_keys (ns : string) (accepted : list string) (ks : list string) : M unit :=
  match ks with
  | [] => ret tt
  | key :: rest =>
      let parts := split "." key in
      p0 <- or_raise (nth_error parts 0) IndexError ;;
      if String.eqb p0 ns then
        p1 <- or_raise (nth_error parts 1) IndexError ;;
        if existsb (String.eqb p1) accepted then check_keys ns accepted rest
        else raise (UnknownProperty key)
      else check_keys ns accepted rest
  end.

(** [key in config and not config.getint(key) <= x] *)
Definition min_int_fails (config : section) (key : string) (x : Z) : M bool :=
  if has config key then b <- getint config key ;; ret (negb (b <=? x))
  else ret false.

(** [key in config and not config.getint(key) >= x] *)
Definition max_int_fails (config : section) (key : string) (x : Z) : M bool :=
  if has config key then b <- getint config key ;; ret (negb (b >=? x))
  else ret false.

(** [key in config and not config.getfloat(key) <= x] *)
Definition min_float_fails (config : section) (key : string) (x : float) : M bool :=
  if has config key then b <- getfloat config key ;; ret (negb (float_leb b x))
  else ret false.

(** [key in config and not config.getfloat(key) >= x] *)
Definition max_float_fails (config : section) (key : string) (x : float) : M bool :=
  if has config key then b <- getfloat config key ;; ret (negb (float_leb x b))
  else ret false.

(** [key in config and not flag == config.getboolean(key)] *)
Definition flag_differs (config : section) (key : string) (flag : bool) : M bool :=
  if has config key then b <- getboolean config key ;; ret (negb (Bool.eqb flag b))
  else ret false.

(** [if key in config: if x > config.getint(key): return False] *)
Definition above_max (config : section) (key : string) (x : Z) : M bool :=
  if has config key then b <- getint config key ;; ret (x >? b)
  else ret false.

(** [if key in config: if x < config.getint(key): return False] *)
Definition below_min (config : section) (key : string) (x : Z) : M bool :=
  if has config key then b <- getint config key ;; ret (x <? b)
  else ret false.

Definition accepted_node : list string :=
  ["id"; "min_channels"; "max_channels"; "min_capacity"; "max_capacity"].

(** The expansion loop of [node.id]. *)
Fixpoint expand_node_ids (config_items : list string) (node_list : list string)
    : M (list string) :=
  match config_items with
  | [] => ret node_list
  | item :: rest =>
      if startswith "file://" item then
        l <- read_nodelist w item ;; expand_node_ids rest (node_list ++ l)
      else expand_node_ids rest (node_list ++ [item])
  end.

(** [if 'node.id' in config: ... if not channel.remote_pubkey in node_list:
    return False]; the flag tells whether [return False] is taken. *)
Definition node_id_fails (channel : Channel) (config : section) : M bool :=
  if has config "node.id" then
    config_items <- getlist w config "node.id" ;;
    node_list <- expand_node_ids config_items [] ;;
    ret (negb (existsb (String.eqb (remote_pubkey channel)) node_list))
  else ret false.

Definition match_by_node (channel : Channel) (config : section) : M bool :=
  run check_keys "node" accepted_node (keys config) ;;
  return_False_when node_id_fails channel config ;;
  node_info <- get_node_info (remote_pubkey channel) ;;
  return_False_when min_int_fails config "node.min_channels" (num_channels node_info) ;;
  return_False_when max_int_fails config "node.max_channels" (num_channels node_info) ;;
  return_False_when min_int_fails config "node.min_capacity" (total_capacity node_info) ;;
  return_False_when max_int_fails config "node.max_capacity" (total_capacity node_info) ;;
  ret true.

Definition accepted_chan : list string :=
  ["id"; "initiator"; "private";
   "min_ratio"; "max_ratio";
   "min_capacity"; "max_capacity";
   "min_local_balance"; "max_local_balance";
   "min_remote_balance"; "max_remote_balance";
   "min_base_fee_msat"; "max_base_fee_msat";
   "min_fee_ppm"; "max_fee_ppm";
   "min_age"; "max_age";
   "activity_period";
   "min_htlcs_in"; "max_htlcs_in";
   "min_htlcs_out"; "max_htlcs_out";
   "min_sats_in"; "max_sats_in";
   "min_sats_out"; "max_sats_out"].

(** The expansion loop of [chan.id]. *)
Fixpoint expand_chan_ids (config_items : list string) (chan_list : list Z)
    : M (list Z) :=
  match config_items with
  | [] => ret chan_list
  | item :: rest =>
      if startswith "file://" item then
        l <- read_chanlist w item ;; expand_chan_ids rest (chan_list ++ l)
      else
        c <- or_raise (parse_channel_id w item) (ChannelIdError item) ;;
        expand_chan_ids rest (chan_list ++ [c])
  end.

Definition chan_id_fails (channel : Channel) (config : section) : M bool :=
  if has config "chan.id" then
    config_items <- getlist w config "chan.id" ;;
    chan_list <- expand_chan_ids config_items [] ;;
    ret (negb (existsb (Z.eqb (chan_id channel)) chan_list))
  else ret false.

(** [a / b] on ints: the quotient rounded to the nearest float. *)
Definition truediv (a b : Z) : M float :=
  if b =? 0 then raise ZeroDivisionError
  else
    let q := float_div (Z2SF a) (Z2SF b) in
    if is_infinity q then raise OverflowError else ret q.

Definition mulmap (c : ascii) : option Z :=
  if Ascii.eqb c "s" then Some 1
  else if Ascii.eqb c "m" then Some 60
  else if Ascii.eqb c "h" then Some (60 * 60)
  else if Ascii.eqb c "d" then Some (60 * 60 * 24)
  else None.

(** simple minutes/hours/days format, e.g. '5m', '3h' *)
Definition parse_activity_period (period : string) : M Z :=
  match py_int period with
  | Some seconds => ret seconds
  | None =>
      c <- or_raise (last_char period) IndexError ;;
      multiplier <- or_raise (mulmap c) (KeyError (String c EmptyString)) ;;
      n <- or_raise (py_int (but_last period)) (ValueError (but_last period)) ;;
      ret (n * multiplier)
  end.

(** Lines 183-199: [chan.id], [chan.initiator], [chan.private]; [k] is the
    rest of the function. *)
Definition chan_identity (channel : Channel) (config : section) (k : M bool) : M bool :=
  return_False_when chan_id_fails channel config ;;
  return_False_when flag_differs config "chan.initiator" (initiator channel) ;;
  return_False_when flag_differs config "chan.private" (private channel) ;;
  k.

(** Lines 201-217: the balance ratio, then ratio, capacity and balance bounds. *)
Definition chan_balances (channel : Channel) (config : section) (k : M bool) : M bool :=
  ratio <- truediv (local_balance channel) (local_balance channel + remote_balance channel) ;;
  return_False_when max_float_fails config "chan.max_ratio" ratio ;;
  return_False_when min_float_fails config "chan.min_ratio" ratio ;;
  return_False_when max_int_fails config "chan.max_capacity" (capacity channel) ;;
  return_False_when min_int_fails config "chan.min_capacity" (capacity channel) ;;
  return_False_when max_int_fails config "chan.max_local_balance" (local_balance channel) ;;
  return_False_when min_int_fails config "chan.min_local_balance" (local_balance channel) ;;
  return_False_when max_int_fails config "chan.max_remote_balance" (remote_balance channel) ;;
  return_False_when min_int_fails config "chan.min_remote_balance" (remote_balance channel) ;;
  k.

(** Lines 244-279: the activity window. *)
Definition chan_activity (channel : Channel) (config : section) (age : Z) : M bool :=
  if has config "chan.activity_period" then
    period <- get config "chan.activity_period" ;;
    seconds <- parse_activity_period period ;;
    fwds <- get_forward_history (chan_id channel) seconds ;;
    let age_seconds := age * 10 * 60 in
    if age_seconds <? seconds then ret false
    else
      return_False_when above_max config "chan.max_htlcs_in" (htlc_in fwds) ;;
      return_False_when below_min config "chan.min_htlcs_in" (htlc_in fwds) ;;
      return_False_when above_max config "chan.max_htlcs_out" (htlc_out fwds) ;;
      return_False_when below_min config "chan.min_htlcs_out" (htlc_out fwds) ;;
      return_False_when above_max config "chan.max_sats_in" (sat_in fwds) ;;
      return_False_when below_min config "chan.min_sats_in" (sat_in fwds) ;;
      return_False_when above_max config "chan.max_sats_out" (sat_out fwds) ;;
      return_False_when below_min config "chan.min_sats_out" (sat_out fwds) ;;
      ret true
  else ret true.

(** Lines 234-242: node info and the age bounds; [k] is the rest of the
    function, which uses [age]. *)
Definition chan_age (channel : Channel) (config : section) (k : Z -> M bool) : M bool :=
  info <- get_info ;;
  match info with
  | None => ret false
  | Some info =>
      let '(block, tx, output) := lnd_to_cl_scid w (chan_id channel) in
      let age := block_height info - block in
      return_False_when min_int_fails config "chan.min_age" age ;;
      return_False_when max_int_fails config "chan.max_age" age ;;
      k age
  end.

(** Lines 219-232: channel info and the bounds on the peer's fee policy. *)
Definition chan_peer (channel : Channel) (config : section) (k : M bool) : M bool :=
  chan_info <- get_chan_info (chan_id channel) ;;
  match chan_info with
  | None => ret false
  | Some chan_info =>
      my_pubkey <- get_own_pubkey ;;
      let peernode_policy :=
        if String.eqb (node2_pub chan_info) my_pubkey
        then node1_policy chan_info else node2_policy chan_info in
      return_False_when min_int_fails config "chan.min_base_fee_msat" (fee_base_msat peernode_policy) ;;
      return_False_when max_int_fails config "chan.max_base_fee_msat" (fee_base_msat peernode_policy) ;;
      return_False_when min_int_fails config "chan.min_fee_ppm" (fee_rate_milli_msat peernode_policy) ;;
      return_False_when max_int_fails config "chan.max_fee_ppm" (fee_rate_milli_msat peernode_policy) ;;
      k
  end.

(** The function body is cut at lines 199, 217, 232 and 242; each part ends
    in the next one. *)
Definition match_by_chan (channel : Channel) (config : section) : M bool :=
  run check_keys "chan" accepted_chan (keys config) ;;
  chan_identity channel config
    (chan_balances channel config
       (chan_peer channel config
          (chan_age channel config
             (chan_activity channel config)))).

(** The namespaces of the dotted keys, in key order, repeats kept. *)
Fixpoint namespaces_of (ks : list string) : list string :=
  match ks with
  | [] => []
  | key :: rest =>
      match split "." key with
      | ns :: _ :: _ => ns :: namespaces_of rest
      | _ => namespaces_of rest
      end
  end.

(** The dict [map] of [eval_matchers]. *)
Definition matcher_map (ns : string) : option (Channel -> section -> M bool) :=
  if String.eqb ns "chan" then Some match_by_chan
  else if String.eqb ns "node" then Some match_by_node
  else None.

Fixpoint eval_namespaces (channel : Channel) (policy : string) (policy_conf : section)
    (namespaces : list string) (matches_policy : bool) : M bool :=
  match namespaces with
  | [] => ret matches_policy
  | ns :: rest =>
      match matcher_map ns with
      | None => run debug (UnknownNamespace ns policy) ;; ret false
      | Some matcher =>
          m <- (if matches_policy then matcher channel policy_conf else ret false) ;;
          eval_namespaces channel policy policy_conf rest m
      end
  end.

Definition eval_matchers (channel : Channel) (policy : string) (policy_conf : section)
    : M bool :=
  eval_namespaces channel policy policy_conf (namespaces_of (keys policy_conf)) true.

(** How the [try] block of [get_policy_for] ends: with [return policy]
    inside the loop, or by running out of policies. *)
Variant scan_end :=
| Final (policy : Policy.t)
| Exhausted (policy : Policy.t).

(** The loop over [self.config.policies]. *)
Fixpoint scan (channel : Channel) (ps : list (string * section)) (policy : Policy.t)
    : M scan_end :=
  match ps with
  | [] => ret (Exhausted policy)
  | (policy_name, policy_conf) :: rest =>
      matched <- eval_matchers channel policy_name policy_conf ;;
      if matched then
        let '(policy', final) := Policy.apply policy policy_name policy_conf in
        if final then ret (Final policy') else scan channel rest policy'
      else scan channel rest policy
  end.

(** The truth value of [self.config.default]: a section, and not an empty one. *)
Definition default_section (cfg : Config) : option section :=
  match default cfg with
  | Some (kv :: l) => Some (kv :: l)
  | _ => None
  end.

(** Lines 104-108. *)
Definition apply_default (cfg : Config) (policy : Policy.t) : option Policy.t :=
  match default_section cfg with
  | Some d =>
      let '(policy', final) := Policy.apply policy "default" d in
      if final then Some policy' else None
  | None => None
  end.

(** What the [try] statement leaves: a value to return, or the policy to go
    on with. *)
Variant flow :=
| Return (r : option Policy.t)
| Continue (policy : Policy.t).

Definition get_policy_for (cfg : Config) (channel : Channel) : M (option Policy.t) :=
  let policy := Policy.init in
  f <- try_except
         (e <- scan channel (policies cfg) policy ;;
          match e with
          | Final policy' => ret (Return (Some policy'))
          | Exhausted policy' => ret (Continue policy')
          end)
         (fun e =>
            run debug (ErrorEvaluating (chan_id channel) e) ;;
            ret (Return None)) ;;
  match f with
  | Return r => ret r
  | Continue policy' => ret (apply_default cfg policy')
  end.

End WithGateway.

End Policies.

(** ** Vocabulary of the statements *)

(** [p], and then [k] when [p] gave [True]; [False] otherwise. *)
Definition and_then (p : M bool) (k : M bool) : M bool :=
  b <- p ;; if b then k else ret false.

(** A caller that resolves several channels, one after the other. *)
Fixpoint for_each {A B} (f : A -> M B) (l : list A) : M (list B) :=
  match l with
  | [] => ret []
  | a :: rest => b <- f a ;; bs <- for_each f rest ;; ret (b :: bs)
  end.

(** An error line of [get_policy_for]. *)
Definition is_error_line (ev : event) : bool :=
  match ev with
  | Debug (ErrorEvaluating _ _) => true
  | _ => false
  end.

(** A computation that writes no error line. *)
Definition quiet {A} (m : M A) : Prop :=
  Forall (fun ev => is_error_line ev = false) (trace m).

Section Resolution.

Variable w : World.
Variable lnd : Lnd.
Variable channel : Channel.

(** The policy's matchers succeed. *)
Definition matches (p : string * section) : bool :=
  match outcome (Policies.eval_matchers w lnd channel (fst p) (snd p)) with
  | Ok true => true
  | _ => false
  end.

(** The policy is evaluated without an exception and does not end the scan:
    it does not match, or it matches and is not final. *)
Definition passed_over (p : string * section) : bool :=
  match outcome (Policies.eval_matchers w lnd channel (fst p) (snd p)) with
  | Ok true => negb (Policy.strategy_of (snd p))
  | Ok false => true
  | Raise _ => false
  end.

(** The policy is evaluated without an exception and does not match. *)
Definition rejected (p : string * section) : bool :=
  match outcome (Policies.eval_matchers w lnd channel (fst p) (snd p)) with
  | Ok false => true
  | _ => false
  end.

(** The sections of the matching policies, in declaration order. *)
Definition matched_sections (ps : list (string * section)) : list section :=
  map snd (List.filter matches ps).

End Resolution.

(** The channel matcher up to a cut of its body, ending in [True] when every
    criterion up to there holds: up to line 199 (key check and identity), up
    to line 217 (and balances), up to line 232 (and the peer's fees), up to
    line 242 (and age). *)
Definition chan_upto_identity (w : World) (channel : Channel) (config : section) : M bool :=
  run Policies.check_keys "chan" Policies.accepted_chan (keys config) ;;
  Policies.chan_identity w channel config (ret true).

Definition chan_upto_balances (w : World) (channel : Channel) (config : section) : M bool :=
  run Policies.check_keys "chan" Policies.accepted_chan (keys config) ;;
  Policies.chan_identity w channel config
    (Policies.chan_balances channel config (ret true)).

Definition chan_upto_peer (w : World) (lnd : Lnd) (channel : Channel) (config : section)
    : M bool :=
  run Policies.check_keys "chan" Policies.accepted_chan (keys config) ;;
  Policies.chan_identity w channel config
    (Policies.chan_balances channel config
       (Policies.chan_peer lnd channel config (ret true))).

Definition chan_upto_age (w : World) (lnd : Lnd) (channel : Channel) (config : section)
    : M bool :=
  run Policies.check_keys "chan" Policies.accepted_chan (keys config) ;;
  Policies.chan_identity w channel config
    (Policies.chan_balances channel config
       (Policies.chan_peer lnd channel config
          (Policies.chan_age w lnd channel config (fun _ => ret true)))).

(** The age in blocks that line 238 computes, when [get_info] answers. *)
Definition channel_age (w : World) (lnd : Lnd) (channel : Channel) : option Z :=
  match lnd_info lnd with
  | Some info =>
      let '(block, tx, output) := lnd_to_cl_scid w (chan_id channel) in
      Some (block_height info - block)
  | None => None
  end.

(** The suffixes of the activity period. *)
Definition period_suffixes : list ascii := ["s"; "m"; "h"; "d"]%char.

(** The sections merged in order into an empty configuration. *)
Definition merged (ss : list section) : gmap string string :=
  fold_left Policy.mask ss ∅.

(** Inclusive bounds, in the words of the specification: a bound that is
    not configured holds; a configured one must be a number [b] with
    [b <= x] (minimum) or [x <= b] (maximum). *)
Definition min_holds (config : section) (key : string) (x : Z) : bool :=
  match sec_get config key with
  | None => true
  | Some v => match py_int v with Some b => b <=? x | None => false end
  end.

Definition max_holds (config : section) (key : string) (x : Z) : bool :=
  match sec_get config key with
  | None => true
  | Some v => match py_int v with Some b => x <=? b | None => false end
  end.

Definition min_ratio_holds (config : section) (key : string) (x : float) : bool :=
  match sec_get config key with
  | None => true
  | Some v => match py_float v with Some b => float_leb b x | None => false end
  end.

Definition max_ratio_holds (config : section) (key : string) (x : float) : bool :=
  match sec_get config key with
  | None => true
  | Some v => match py_float v with Some b => float_leb x b | None => false end
  end.

(** The four bounds of the node matcher, on the peer's node info. *)
Definition node_bounds_hold (config : section) (node_info : NodeInfo) : bool :=
  min_holds config "node.min_channels" (num_channels node_info)
  && max_holds config "node.max_channels" (num_channels node_info)
  && min_holds config "node.min_capacity" (total_capacity node_info)
  && max_holds config "node.max_capacity" (total_capacity node_info).

(** The bounds on ratio, capacity and balances. *)
Definition balances_hold (channel : Channel) (config : section) (ratio : float) : bool :=
  max_ratio_holds config "chan.max_ratio" ratio
  && min_ratio_holds config "chan.min_ratio" ratio
  && max_holds config "chan.max_capacity" (capacity channel)
  && min_holds config "chan.min_capacity" (capacity channel)
  && max_holds config "chan.max_local_balance" (local_balance channel)
  && min_holds config "chan.min_local_balance" (local_balance channel)
  && max_holds config "chan.max_remote_balance" (remote_balance channel)
  && min_holds config "chan.min_remote_balance" (remote_balance channel).

(** The side of the channel info that is not this node. *)
Definition peer_policy (lnd : Lnd) (chan_info : ChanInfo) : RoutingPolicy :=
  if String.eqb (node2_pub chan_info) (lnd_own_pubkey lnd)
  then node1_policy chan_info else node2_policy chan_info.

(** The bounds on the peer's base fee and fee rate. *)
Definition peer_fees_hold (config : section) (peernode_policy : RoutingPolicy) : bool :=
  min_holds config "chan.min_base_fee_msat" (fee_base_msat peernode_policy)
  && max_holds config "chan.max_base_fee_msat" (fee_base_msat peernode_policy)
  && min_holds config "chan.min_fee_ppm" (fee_rate_milli_msat peernode_policy)
  && max_holds config "chan.max_fee_ppm" (fee_rate_milli_msat peernode_policy).

(** The bounds on the age in blocks. *)
Definition age_holds (config : section) (age : Z) : bool :=
  min_holds config "chan.min_age" age && max_holds config "chan.max_age" age.

(** The bounds on forwarded htlcs and sats. *)
Definition forwards_hold (config : section) (fwds : Forwards) : bool :=
  max_holds config "chan.max_htlcs_in" (htlc_in fwds)
  && min_holds config "chan.min_htlcs_in" (htlc_in fwds)
  && max_holds config "chan.max_htlcs_out" (htlc_out fwds)
  && min_holds config "chan.min_htlcs_out" (htlc_out fwds)
  && max_holds config "chan.max_sats_in" (sat_in fwds)
  && min_holds config "chan.min_sats_in" (sat_in fwds)
  && max_holds config "chan.max_sats_out" (sat_out fwds)
  && min_holds config "chan.min_sats_out" (sat_out fwds).

(** The activity criterion: none configured, or a period that parses, a
    channel at least that old (at 600 seconds a block), and forwards over
    the period within their bounds. *)
Definition activity_holds (lnd : Lnd) (channel : Channel) (config : section) (age : Z)
    : bool :=
  match sec_get config "chan.activity_period" with
  | None => true
  | Some period =>
      match outcome (Policies.parse_activity_period period) with
      | Ok seconds =>
          (seconds <=? age * 10 * 60)
          && forwards_hold config (lnd_forward_history lnd (chan_id channel) seconds)
      | Raise _ => false
      end
  end.

(** A lowercase hexadecimal digit. *)
Definition is_lower_hex (c : ascii) : bool :=
  let n := ord c in (isdigit c || (97 <=? n) && (n <=? 102))%N.

(** What the pubkey pattern accepts on a stripped token: 66 characters, each
    a digit or a lowercase letter. *)
Definition is_pubkey_token (t : string) : bool :=
  (String.length t =? 66)%nat && forallb_str pubkey_char t.

(** The entries of a list file: split on commas and line breaks, comment
    and surrounding blanks removed. *)
Definition tokens_of (text : string) : list string :=
  map clean_raw_id (raw_ids_of text).

(** An entry that is neither returned nor blank. *)
Definition is_ignored_token (t : string) : bool :=
  negb (is_pubkey_token t) && negb (String.eqb (strip t) EmptyString).

(** The section has a dotted key in namespace [ns]. *)
Definition has_namespace (ns : string) (config : section) : bool :=
  existsb (String.eqb ns) (Policies.namespaces_of (keys config)).


Definition known_namespace (ns : string) : bool :=
  String.eqb ns "chan" || String.eqb ns "node".

(** ** The typed accessors of class Policy *)

(** Lines 63-81.  The values of [self.config] are the strings merged from
    the sections, and [set] is modelled for a string value. *)
Module PolicyAccessors.

(** [_get]: [default] when the key is missing, [func] of the value else. *)
Definition _get {A} (self : Policy.t) (key : string) (func : string -> M A)
    (default : option A) : M (option A) :=
  match Policy.config self !! key with
  | None => ret default
  | Some v => x <- func v ;; ret (Some x)
  end.

(** [str(v)] *)
Definition get (self : Policy.t) (key : string) (default : option string)
    : M (option string) :=
  _get self key (fun v => ret v) default.

(** [int(v)] *)
Definition getint (self : Policy.t) (key : string) (default : option Z)
    : M (option Z) :=
  _get self key (fun v => or_raise (py_int v) (ValueError v)) default.

(** [float(v)] *)
Definition getfloat (self : Policy.t) (key : string) (default : option float)
    : M (option float) :=
  _get self key (fun v => or_raise (py_float v) (ValueError v)) default.

(** [bool(v)]: a string is true when it is not empty. *)
Definition getbool (self : Policy.t) (key : string) (default : option bool)
    : M (option bool) :=
  _get self key (fun v => ret (negb (String.eqb v EmptyString))) default.

(** [self.config[key] = value] *)
Definition set (self : Policy.t) (key value : string) : Policy.t :=
  {| Policy.strategy := Policy.strategy self;
     Policy.name := Policy.name self;
     Policy.config := <[key := value]> (Policy.config self) |}.

End PolicyAccessors.

(** ** Further vocabulary *)

(** A key without a dot. *)
Definition dotless (key : string) : bool :=
  forallb_str (fun c => negb (Ascii.eqb c ".")) key.

(** An item of [node.id] or [chan.id] that is taken as it stands. *)
Definition is_literal (item : string) : bool := negb (startswith "file://" item).

(** What the key check of a matcher lets through: a key of another
    namespace, or a key of the namespace whose second part is accepted. *)
Definition key_passes (ns : string) (accepted : list string) (key : string) : bool :=
  match split "." key with
  | p0 :: rest =>
      if String.eqb p0 ns then
        match rest with
        | p1 :: _ => existsb (String.eqb p1) accepted
        | [] => false
        end
      else true
  | [] => true
  end.

(** The channel ids of the entries of a list file that the formatter
    accepts, in file order. *)
Definition chan_ids_of (w : World) (tokens : list string) : list Z :=
  flat_map (fun t => match parse_channel_id w t with
                     | Some c => [c]
                     | None => []
                     end) tokens.

(** An entry of a channel list that is neither accepted nor blank. *)
Definition is_ignored_chan_token (w : World) (t : string) : bool :=
  match parse_channel_id w t with
  | Some _ => false
  | None => negb (String.eqb (strip t) EmptyString)
  end.

(** Both bounds are configured as integers and the minimum is above the
    maximum. *)
Definition crossed (config : section) (kmin kmax : string) : bool :=
  match sec_get config kmin, sec_get config kmax with
  | Some v1, Some v2 =>
      match py_int v1, py_int v2 with
      | Some b1, Some b2 => b2 <? b1
      | _, _ => false
      end
  | _, _ => false
  end.

(** The pairs of integer bounds that the channel matcher always looks at,
    and those of the node matcher. *)
Definition chan_bound_pairs : list (string * string) :=
  [("chan.min_capacity", "chan.max_capacity");
   ("chan.min_local_balance", "chan.max_local_balance");
   ("chan.min_remote_balance", "chan.max_remote_balance");
   ("chan.min_base_fee_msat", "chan.max_base_fee_msat");
   ("chan.min_fee_ppm", "chan.max_fee_ppm");
   ("chan.min_age", "chan.max_age")].

Definition node_bound_pairs : list (string * string) :=
  [("node.min_channels", "node.max_channels");
   ("node.min_capacity", "node.max_capacity")].

(** The policy is named after a policy of the list that matches and is
    final, or it is the final default section under the name [default]. *)
Definition closed_by (w : World) (lnd : Lnd) (channel : Channel) (cfg : Config)
    (n : string) (s : section) : Prop :=
  Policy.strategy_of s = true /\
  ((In (n, s) (policies cfg) /\ matches w lnd channel (n, s) = true) \/
   (n = "default" /\ default cfg = Some s)).

(** The section is one that was merged: that of a matching policy of the
    list, or the default section. *)
Definition merged_from (w : World) (lnd : Lnd) (channel : Channel) (cfg : Config)
    (s : section) : Prop :=
  (exists n, In (n, s) (policies cfg) /\ matches w lnd channel (n, s) = true) \/
  default cfg = Some s.

(** ** Sample inputs *)

Module Sample.

Definition repeat_char (c : ascii) (n : nat) : string :=
  Nat.iter n (String c) EmptyString.

Definition fees : RoutingPolicy :=
  {| fee_base_msat := 1000; fee_rate_milli_msat := 50 |}.

Definition info_of_chan : ChanInfo :=
  {| node1_pub := "me"; node2_pub := "peer";
     node1_policy := fees; node2_policy := fees |}.

(** A node at block 700000 whose peers have 10 channels of 5000 sat. *)
Definition lnd : Lnd :=
  {| lnd_node_info := fun _ => {| num_channels := 10; total_capacity := 5000 |};
     lnd_chan_info := fun _ => Some info_of_chan;
     lnd_own_pubkey := "me";
     lnd_info := Some {| block_height := 700000 |};
     lnd_forward_history := fun _ _ =>
       {| htlc_in := 1; htlc_out := 2; sat_in := 3; sat_out := 4 |} |}.

(** The same node when the channel graph has no entry for the channel. *)
Definition lnd_without_chan_info : Lnd :=
  {| lnd_node_info := lnd_node_info lnd;
     lnd_chan_info := fun _ => None;
     lnd_own_pubkey := "me";
     lnd_info := lnd_info lnd;
     lnd_forward_history := lnd_forward_history lnd |}.

Definition zs : string := repeat_char "z" 66.

(** One list file, [/etc/nodes], holding 66 times the letter z. *)
Definition world : World :=
  {| file_contents := fun path =>
       if String.eqb path "/etc/nodes" then Readable zs else Inaccessible;
     parse_channel_id := py_int;
     lnd_to_cl_scid := fun c => (Z.shiftr c 40, Z.land (Z.shiftr c 16) 16777215, Z.land c 65535);
     list_converter := fun v => map strip (split "," v) |}.

(** A channel opened at block 600000 with balances 30 and 70. *)
Definition channel : Channel :=
  {| remote_pubkey := "peer";
     chan_id := Z.shiftl 600000 40;
     capacity := 100;
     local_balance := 30;
     remote_balance := 70;
     initiator := true;
     private := false |}.

(** A channel with nothing on either side. *)
Definition empty_channel : Channel :=
  {| remote_pubkey := "peer";
     chan_id := Z.shiftl 600000 40;
     capacity := 0;
     local_balance := 0;
     remote_balance := 0;
     initiator := true;
     private := false |}.

(** A first policy whose [strategy] key has no value, then a final one. *)
Definition config_with_empty_strategy : Config :=
  {| policies := [("a", [("strategy", "")]); ("b", [("strategy", "s")])];
     default := None |}.

(** A default section that sets a fee and names no strategy. *)
Definition config_with_open_default : Config :=
  {| policies := []; default := Some [("base_fee_msat", "1000")] |}.

(** The inheritance example: an open first policy, then a final one. *)
Definition config_with_inheritance : Config :=
  {| policies := [("a", [("x", "1")]);
                  ("b", [("chan.min_capacity", "1"); ("strategy", "s")])];
     default := None |}.

(** One policy with an option the channel matcher does not know. *)
Definition config_with_bogus_key : Config :=
  {| policies := [("a", [("chan.bogus", "1"); ("strategy", "s")])];
     default := None |}.

(** One policy the sample channel does not match, and no default. *)
Definition config_without_match : Config :=
  {| policies := [("a", [("chan.min_capacity", "1000000"); ("strategy", "x")])];
     default := None |}.

(** The same policy with a final default section. *)
Definition config_with_default : Config :=
  {| policies := [("a", [("chan.min_capacity", "1000000"); ("strategy", "x")])];
     default := Some [("strategy", "static"); ("fee_ppm", "10")] |}.

(** A policy whose activity period has the unknown suffix [x]. *)
Definition section_with_bad_period : section :=
  [("chan.activity_period", "5x"); ("strategy", "s")].

Definition config_with_bad_period : Config :=
  {| policies := [("a", section_with_bad_period)]; default := None |}.

(** A criterion on the private flag that the sample channels do not meet. *)
Definition section_private : section := [("chan.private", "true")].

(** A capacity bound and nothing about ratios. *)
Definition section_capacity : section := [("chan.min_capacity", "0")].


(** A capacity bound the sample channel fails, before an unknown node option. *)
Definition section_capacity_then_bogus : section :=
  [("chan.min_capacity", "1000000"); ("node.bogus", "1")].

(** Every bound of the channel matcher, each set to the very value the
    sample channel has on the sample node: 30 of 100 sat local, fees 1000
    and 50, opened 100000 blocks ago, forwards 1, 2, 3, 4. *)
Definition section_chan_at_bounds : section :=
  [("chan.min_ratio", "0.3"); ("chan.max_ratio", "0.3");
   ("chan.min_capacity", "100"); ("chan.max_capacity", "100");
   ("chan.min_local_balance", "30"); ("chan.max_local_balance", "30");
   ("chan.min_remote_balance", "70"); ("chan.max_remote_balance", "70");
   ("chan.min_base_fee_msat", "1000"); ("chan.max_base_fee_msat", "1000");
   ("chan.min_fee_ppm", "50"); ("chan.max_fee_ppm", "50");
   ("chan.min_age", "100000"); ("chan.max_age", "100000");
   ("chan.activity_period", "60000000");
   ("chan.min_htlcs_in", "1"); ("chan.max_htlcs_in", "1");
   ("chan.min_htlcs_out", "2"); ("chan.max_htlcs_out", "2");
   ("chan.min_sats_in", "3"); ("chan.max_sats_in", "3");
   ("chan.min_sats_out", "4"); ("chan.max_sats_out", "4")].

(** Every bound of the node matcher, set to what the sample peer has. *)
Definition section_node_at_bounds : section :=
  [("node.min_channels", "10"); ("node.max_channels", "10");
   ("node.min_capacity", "5000"); ("node.max_capacity", "5000")].

(** The ratio example of the specification. *)
Definition section_max_ratio : section := [("chan.max_ratio", "0.25"); ("strategy", "x")].
Definition section_min_ratio : section := [("chan.min_ratio", "0.25"); ("strategy", "x")].

(** The float 0.3, which is 30 / 100. *)
Definition ratio_30_100 : float := S754_finite false 5404319552844595 (-54).

(** A floor on the peer's fee rate above the 50 ppm of the sample peer. *)
Definition section_fee_floor : section := [("chan.min_fee_ppm", "100")].

(** A node list that is read from a file that does not exist. *)
Definition config_with_missing_list : Config :=
  {| policies := [("a", [("node.id", "file:///etc/missing"); ("strategy", "s")])];
     default := None |}.

(** The list file of the specification: a key with a comment on the first
    line, a second key on the next line. *)
Definition key_a : string := String "0" (String "2" (repeat_char "a" 64)).
Definition key_b : string := String "0" (String "3" (repeat_char "b" 64)).
Definition two_keys_text : string :=
  String.append key_a (String.append " # comment" (String PyStr.LF key_b)).

(** A world whose pubkey list file has two keys, a comment, a blank line,
    a word and the first key again. *)
Definition keys_text : string :=
  String.append two_keys_text
    (String.append (String PyStr.LF (String PyStr.LF "word,")) key_a).

Definition world_with_keys : World :=
  {| file_contents := fun _ => Readable keys_text;
     parse_channel_id := py_int;
     lnd_to_cl_scid := lnd_to_cl_scid world;
     list_converter := list_converter world |}.

(** A world whose channel list file has two ids, a comment, a malformed
    entry and a blank one. *)
Definition world_with_chans : World :=
  {| file_contents := fun _ => Readable "123 # first,12x,,456";
     parse_channel_id := py_int;
     lnd_to_cl_scid := lnd_to_cl_scid world;
     list_converter := list_converter world |}.

End Sample.

(** * Properties *)

(** ** The computation monad *)

Lemma M_eta {A} (m : M A) : m = (trace m, outcome m).
Proof. by destruct m. Qed.

Lemma bind_Ok {A B} (t : list event) (a : A) (f : A -> M B) :
  bind (t, Ok a) f = (t ++ trace (f a), outcome (f a)).
Proof. unfold bind. by destruct (f a). Qed.

Lemma bind_Raise {A B} (t : list event) (e : exn) (f : A -> M B) :
  bind (t, Raise e) f = (t, Raise e).
Proof. reflexivity. Qed.

Lemma bind_ret {A B} (a : A) (f : A -> M B) : bind (ret a) f = f a.
Proof. unfold ret. rewrite bind_Ok. simpl. by destruct (f a). Qed.

Lemma bind_raise {A B} (e : exn) (f : A -> M B) : bind (raise e) f = raise e.
Proof. reflexivity. Qed.

Lemma bind_assoc {A B C} (m : M A) (f : A -> M B) (g : B -> M C) :
  bind (bind m f) g = bind m (fun a => bind (f a) g).
Proof.
  destruct m as [t [a|e]]; [|reflexivity].
  unfold bind at 2 3. destruct (f a) as [t1 [b|e1]]; simpl; [|reflexivity].
  destruct (g b) as [t2 r2]. by rewrite app_assoc.
Qed.

Lemma outcome_bind {A B} (m : M A) (f : A -> M B) :
  outcome (bind m f) =
  match outcome m with Ok a => outcome (f a) | Raise e => Raise e end.
Proof. destruct m as [t [a|e]]; [|reflexivity]. by rewrite bind_Ok. Qed.

Lemma trace_bind {A B} (m : M A) (f : A -> M B) :
  trace (bind m f) =
  match outcome m with Ok a => trace m ++ trace (f a) | Raise e => trace m end.
Proof. destruct m as [t [a|e]]; [|reflexivity]. by rewrite bind_Ok. Qed.

Lemma outcome_bind_Ok {A B} (m : M A) (f : A -> M B) (b : B) :
  outcome (bind m f) = Ok b ->
  exists a, outcome m = Ok a /\ outcome (f a) = Ok b.
Proof. rewrite outcome_bind. destruct (outcome m); [eauto | discriminate]. Qed.

Lemma trace_bind_incl {A B} (m : M A) (f : A -> M B) (ev : event) :
  In ev (trace m) -> In ev (trace (bind m f)).
Proof.
  rewrite trace_bind. destruct (outcome m); [|done].
  intros H. apply in_or_app. by left.
Qed.

(** ** [return False] steps *)

Lemma return_False_if_quiet (b : bool) (k : M bool) :
  return_False_if ([], Ok b) k = if b then ret false else k.
Proof.
  unfold return_False_if. rewrite bind_Ok. simpl.
  destruct b; [reflexivity | symmetry; apply M_eta].
Qed.

Lemma outcome_return_False_if (c k : M bool) :
  outcome (return_False_when c ;; k) = Ok true ->
  outcome c = Ok false /\ outcome k = Ok true.
Proof.
  unfold return_False_if. intros H.
  apply outcome_bind_Ok in H as ([|] & Hc & Hk); [discriminate | done].
Qed.

Lemma and_then_true (k : M bool) : and_then (ret true) k = k.
Proof. unfold and_then. by rewrite bind_ret. Qed.

Lemma and_then_false (k : M bool) : and_then (ret false) k = ret false.
Proof. unfold and_then. by rewrite bind_ret. Qed.

Lemma and_then_bind {A} (m : M A) (p : A -> M bool) (k : M bool) :
  bind m (fun x => and_then (p x) k) = and_then (bind m p) k.
Proof. unfold and_then. by rewrite bind_assoc. Qed.

Lemma and_then_return_False_if (c p k : M bool) :
  (return_False_when c ;; and_then p k) = and_then (return_False_when c ;; p) k.
Proof.
  unfold return_False_if, and_then. rewrite bind_assoc.
  destruct c as [t [[|]|e]]; [| reflexivity | reflexivity].
  by rewrite !bind_Ok, bind_ret.
Qed.

Lemma and_then_passes (p k : M bool) :
  outcome p = Ok true -> and_then p k = (trace p ++ trace k, outcome k).
Proof.
  destruct p as [t r]. cbn [outcome trace fst snd]. intros ->.
  unfold and_then. by rewrite bind_Ok.
Qed.

Lemma and_then_stops (p k : M bool) :
  outcome p = Ok false -> and_then p k = (trace p, Ok false).
Proof.
  destruct p as [t r]. cbn [outcome trace fst snd]. intros ->.
  unfold and_then. rewrite bind_Ok. cbn. by rewrite app_nil_r.
Qed.

Lemma and_then_raises (p k : M bool) (e : exn) :
  outcome p = Raise e -> and_then p k = (trace p, Raise e).
Proof. destruct p as [t r]. cbn [outcome trace fst snd]. by intros ->. Qed.

Lemma outcome_and_then (p k : M bool) :
  outcome (and_then p k) = Ok true ->
  outcome p = Ok true /\ outcome k = Ok true.
Proof.
  unfold and_then. intros H.
  apply outcome_bind_Ok in H as ([|] & Hp & Hk); [done | discriminate].
Qed.

(** ** The scan over the policy list *)

Section ScanFacts.

Variable w : World.
Variable lnd : Lnd.
Variable channel : Channel.

(** A policy after merging sections that do not close the scan. *)
Lemma apply_open (p : Policy.t) (n : string) (s : section) :
  Policy.strategy_of s = false ->
  Policy.apply p n s =
  ({| Policy.strategy := Policy.strategy p;
      Policy.name := Policy.name p;
      Policy.config := Policy.mask (Policy.config p) s |}, false).
Proof. intros H. unfold Policy.apply. by rewrite H. Qed.

Lemma apply_final (p : Policy.t) (n : string) (s : section) :
  Policy.strategy_of s = true ->
  Policy.apply p n s =
  ({| Policy.strategy := Some Policy.StrategyDelegate_of_self;
      Policy.name := Some n;
      Policy.config := Policy.mask (Policy.config p) s |}, true).
Proof. intros H. unfold Policy.apply. by rewrite H. Qed.

Lemma scan_cons (n : string) (s : section) (rest : list (string * section))
    (p : Policy.t) :
  Policies.scan w lnd channel ((n, s) :: rest) p =
  (matched <- Policies.eval_matchers w lnd channel n s ;;
   if matched then
     let '(p', final) := Policy.apply p n s in
     if final then ret (Policies.Final p') else Policies.scan w lnd channel rest p'
   else Policies.scan w lnd channel rest p).
Proof. reflexivity. Qed.

(** Policies that are passed over leave the scan running, and what it
    carries is the configuration with the matching sections merged in. *)
Lemma scan_passed_over (pre : list (string * section)) :
  forall p : Policy.t,
  forallb (passed_over w lnd channel) pre = true ->
  outcome (Policies.scan w lnd channel pre p) =
  Ok (Policies.Exhausted
        {| Policy.strategy := Policy.strategy p;
           Policy.name := Policy.name p;
           Policy.config :=
             fold_left Policy.mask (matched_sections w lnd channel pre) (Policy.config p) |}).
Proof.
  induction pre as [|[n s] pre IH]; intros p H.
  - by destruct p.
  - cbn [forallb] in H. apply andb_prop in H as [H1 H2].
    rewrite scan_cons, outcome_bind.
    unfold matched_sections. cbn [List.filter].
    unfold passed_over, matches in *. cbn [fst snd] in *.
    destruct (outcome (Policies.eval_matchers w lnd channel n s)) as [[|]|e];
      [| |discriminate].
    + apply negb_true_iff in H1. rewrite (apply_open _ _ _ H1).
      rewrite (IH _ H2). reflexivity.
    + rewrite (IH _ H2). reflexivity.
Qed.

(** A scan that runs out of policies on a prefix goes on with the rest. *)
Lemma scan_app (pre rest : list (string * section)) :
  forall p p' : Policy.t,
  outcome (Policies.scan w lnd channel pre p) = Ok (Policies.Exhausted p') ->
  Policies.scan w lnd channel (pre ++ rest) p =
  (trace (Policies.scan w lnd channel pre p) ++ trace (Policies.scan w lnd channel rest p'),
   outcome (Policies.scan w lnd channel rest p')).
Proof.
  induction pre as [|[n s] pre IH]; intros p p' H.
  - cbn in H. injection H as ->. cbn [app]. apply M_eta.
  - rewrite <- app_comm_cons, !scan_cons in *.
    destruct (Policies.eval_matchers w lnd channel n s) as [t [[|]|e]];
      [| |discriminate]; rewrite !bind_Ok in *; cbn [outcome trace fst snd] in *.
    + destruct (Policy.apply p n s) as [q [|]]; [discriminate|].
      rewrite (IH _ _ H). cbn [outcome trace fst snd]. by rewrite app_assoc.
    + rewrite (IH _ _ H). cbn [outcome trace fst snd]. by rewrite app_assoc.
Qed.

(** [get_policy_for], by the way its [try] block ends. *)
Lemma get_policy_for_cases (cfg : Config) :
  Policies.get_policy_for w lnd cfg channel =
  let s := Policies.scan w lnd channel (policies cfg) Policy.init in
  match outcome s with
  | Ok (Policies.Final p) => (trace s, Ok (Some p))
  | Ok (Policies.Exhausted p) => (trace s, Ok (Policies.apply_default cfg p))
  | Raise e => (trace s ++ [Debug (ErrorEvaluating (chan_id channel) e)], Ok None)
  end.
Proof.
  unfold Policies.get_policy_for. cbn zeta.
  destruct (Policies.scan w lnd channel (policies cfg) Policy.init) as [t [[p|p]|e]];
    cbn; by rewrite ?app_nil_r.
Qed.

Lemma get_policy_for_total (cfg : Config) :
  exists r, outcome (Policies.get_policy_for w lnd cfg channel) = Ok r.
Proof.
  rewrite get_policy_for_cases. cbn zeta.
  destruct (outcome (Policies.scan w lnd channel (policies cfg) Policy.init))
    as [[p|p]|e]; eauto.
Qed.

End ScanFacts.

Lemma for_each_total {A B} (f : A -> M B) (l : list A) :
  (forall a, exists b, outcome (f a) = Ok b) ->
  exists bs, outcome (for_each f l) = Ok bs /\
             Forall2 (fun a b => outcome (f a) = Ok b) l bs.
Proof.
  intros Hf. induction l as [|a l (bs & IH1 & IH2)].
  - exists []. split; [reflexivity | constructor].
  - destruct (Hf a) as [b Hb]. exists (b :: bs). split.
    + cbn [for_each]. rewrite outcome_bind, Hb, outcome_bind, IH1. reflexivity.
    + by constructor.
Qed.

(** ** Merging sections into the collected configuration *)

Lemma has_cons (k0 v0 : string) (s : section) (k : string) :
  has ((k0, v0) :: s) k = String.eqb k0 k || has s k.
Proof. unfold has. cbn [sec_get]. by destruct (String.eqb k0 k). Qed.

Lemma sec_get_not_in (s : section) (k : string) :
  k ∉ keys s -> sec_get s k = None.
Proof.
  induction s as [|[k0 v0] s IH]; [done|]. cbn [keys map fst sec_get].
  intros H. apply not_elem_of_cons in H as [Hne H].
  destruct (String.eqb_spec k0 k) as [->|_]; [done|]. by apply IH.
Qed.

Lemma mask_cons (c : gmap string string) (k0 v0 : string) (s : section) :
  Policy.mask c ((k0, v0) :: s) = Policy.mask (<[k0 := v0]> c) s.
Proof. reflexivity. Qed.

Lemma mask_absent (s : section) :
  forall (c : gmap string string) (k : string),
  has s k = false -> Policy.mask c s !! k = c !! k.
Proof.
  induction s as [|[k0 v0] s IH]; intros c k H; [done|].
  rewrite has_cons in H. apply orb_false_elim in H as [H1 H2].
  rewrite mask_cons, (IH _ _ H2).
  apply lookup_insert_ne. by apply String.eqb_neq.
Qed.

Lemma mask_is_Some (s : section) :
  forall (c : gmap string string) (k : string),
  is_Some (c !! k) \/ has s k = true -> is_Some (Policy.mask c s !! k).
Proof.
  induction s as [|[k0 v0] s IH]; intros c k H.
  - destruct H as [H|H]; [done | discriminate].
  - rewrite mask_cons. apply IH. rewrite has_cons in H.
    destruct (String.eqb_spec k0 k) as [->|Hne].
    + left. rewrite lookup_insert_eq. by eexists.
    + rewrite lookup_insert_ne by done. exact H.
Qed.

(** With unique keys, the merge takes the section's value for each of its
    keys and keeps the collected value for the others. *)
Lemma mask_lookup (s : section) :
  forall (c : gmap string string) (k : string),
  NoDup (keys s) ->
  Policy.mask c s !! k =
  match sec_get s k with Some v => Some v | None => c !! k end.
Proof.
  induction s as [|[k0 v0] s IH]; intros c k Hnd; [done|].
  cbn [keys map fst] in Hnd. apply NoDup_cons in Hnd as [Hk0 Hnd].
  rewrite mask_cons, (IH _ _ Hnd). cbn [sec_get].
  destruct (String.eqb_spec k0 k) as [->|Hne].
  - rewrite (sec_get_not_in _ _ Hk0). apply lookup_insert_eq.
  - destruct (sec_get s k); [done|]. by apply lookup_insert_ne.
Qed.

Lemma fold_mask_absent (ss : list section) :
  forall (c : gmap string string) (k : string),
  (forall s, In s ss -> has s k = false) ->
  fold_left Policy.mask ss c !! k = c !! k.
Proof.
  induction ss as [|s ss IH]; intros c k H; [done|].
  cbn [fold_left]. rewrite IH.
  - apply mask_absent, H. by left.
  - intros s' Hs'. apply H. by right.
Qed.

Lemma fold_mask_is_Some (ss : list section) :
  forall (c : gmap string string) (k : string),
  is_Some (c !! k) \/ (exists s, In s ss /\ has s k = true) ->
  is_Some (fold_left Policy.mask ss c !! k).
Proof.
  induction ss as [|s ss IH]; intros c k H.
  - destruct H as [H|(s & [] & _)]. exact H.
  - cbn [fold_left]. apply IH.
    destruct H as [H|(s' & [<-|Hin] & Hk)].
    + left. apply mask_is_Some. by left.
    + left. apply mask_is_Some. by right.
    + right. eauto.
Qed.

(** Last write wins: the value of a key is the one given by the last
    section, in merge order, that has the key. *)
Lemma fold_mask_last_write (ss1 ss2 : list section) (s : section)
    (c : gmap string string) (k v : string) :
  NoDup (keys s) ->
  sec_get s k = Some v ->
  (forall s', In s' ss2 -> has s' k = false) ->
  fold_left Policy.mask (ss1 ++ s :: ss2) c !! k = Some v.
Proof.
  intros Hnd Hk Hlater.
  rewrite fold_left_app. cbn [fold_left].
  rewrite (fold_mask_absent _ _ _ Hlater), (mask_lookup _ _ _ Hnd). by rewrite Hk.
Qed.

(** ** Error lines come from [get_policy_for] only *)

Lemma quiet_ret {A} (a : A) : quiet (ret a).
Proof. constructor. Qed.

Lemma quiet_raise {A} (e : exn) : quiet (@raise A e).
Proof. constructor. Qed.

Lemma quiet_emit (ev : event) : is_error_line ev = false -> quiet (emit ev).
Proof. intros H. by repeat constructor. Qed.

Lemma quiet_or_raise {A} (o : option A) (e : exn) : quiet (or_raise o e).
Proof. destruct o; constructor. Qed.

Lemma quiet_bind {A B} (m : M A) (f : A -> M B) :
  quiet m -> (forall a, quiet (f a)) -> quiet (bind m f).
Proof.
  unfold quiet. intros Hm Hf. rewrite trace_bind.
  destruct (outcome m) as [a|e]; [|exact Hm].
  apply Forall_app. split; [exact Hm | apply Hf].
Qed.

Lemma quiet_return_False_if (c k : M bool) :
  quiet c -> quiet k -> quiet (return_False_when c ;; k).
Proof.
  intros Hc Hk. apply quiet_bind; [exact Hc|].
  intros [|]; [apply quiet_ret | exact Hk].
Qed.

Ltac quiet_step :=
  match goal with
  | H : quiet ?m |- quiet ?m => exact H
  | H : forall x, quiet (?f x) |- quiet (?f _) => apply H
  | |- quiet (ret _) => apply quiet_ret
  | |- quiet (raise _) => apply quiet_raise
  | |- quiet (or_raise _ _) => apply quiet_or_raise
  | |- quiet (emit _) => by apply quiet_emit
  | |- quiet (debug _) => by apply quiet_emit
  | |- quiet (return_False_if _ _) => apply quiet_return_False_if
  | |- quiet (bind _ _) => apply quiet_bind; [|intros ?]
  | |- quiet (if ?b then _ else _) => destruct b
  | |- quiet (match ?x with _ => _ end) => destruct x
  end.

Ltac quiet_by lemmas := repeat first [quiet_step | lemmas].

Lemma quiet_get (config : section) (key : string) : quiet (get config key).
Proof. apply quiet_or_raise. Qed.

Lemma quiet_getint (config : section) (key : string) : quiet (getint config key).
Proof. unfold getint. quiet_by ltac:(apply quiet_get). Qed.

Lemma quiet_getfloat (config : section) (key : string) : quiet (getfloat config key).
Proof. unfold getfloat. quiet_by ltac:(apply quiet_get). Qed.

Lemma quiet_getboolean (config : section) (key : string) : quiet (getboolean config key).
Proof. unfold getboolean. quiet_by ltac:(apply quiet_get). Qed.

Lemma quiet_getlist (w : World) (config : section) (key : string) :
  quiet (getlist w config key).
Proof. unfold getlist. quiet_by ltac:(apply quiet_get). Qed.

Lemma quiet_read_nodelist (w : World) (url : string) : quiet (read_nodelist w url).
Proof.
  unfold read_nodelist, open_read. quiet_by idtac.
  generalize (@nil string). induction (raw_ids_of a) as [|r l IH]; intros acc;
    cbn [read_nodelist_loop]; quiet_by ltac:(apply IH).
Qed.

Lemma quiet_read_chanlist (w : World) (url : string) : quiet (read_chanlist w url).
Proof.
  unfold read_chanlist, open_read. quiet_by idtac.
  generalize (@nil Z). induction (raw_ids_of a) as [|r l IH]; intros acc;
    cbn [read_chanlist_loop]; quiet_by ltac:(apply IH).
Qed.

Section QuietMatchers.

Variable w : World.
Variable lnd : Lnd.

Lemma quiet_check_keys (ns : string) (accepted ks : list string) :
  quiet (Policies.check_keys ns accepted ks).
Proof.
  induction ks as [|key ks IH]; cbn [Policies.check_keys]; quiet_by idtac.
Qed.

Lemma quiet_min_int_fails config key x : quiet (Policies.min_int_fails config key x).
Proof. unfold Policies.min_int_fails. quiet_by ltac:(apply quiet_getint). Qed.

Lemma quiet_max_int_fails config key x : quiet (Policies.max_int_fails config key x).
Proof. unfold Policies.max_int_fails. quiet_by ltac:(apply quiet_getint). Qed.

Lemma quiet_min_float_fails config key x : quiet (Policies.min_float_fails config key x).
Proof. unfold Policies.min_float_fails. quiet_by ltac:(apply quiet_getfloat). Qed.

Lemma quiet_max_float_fails config key x : quiet (Policies.max_float_fails config key x).
Proof. unfold Policies.max_float_fails. quiet_by ltac:(apply quiet_getfloat). Qed.

Lemma quiet_flag_differs config key b : quiet (Policies.flag_differs config key b).
Proof. unfold Policies.flag_differs. quiet_by ltac:(apply quiet_getboolean). Qed.

Lemma quiet_above_max config key x : quiet (Policies.above_max config key x).
Proof. unfold Policies.above_max. quiet_by ltac:(apply quiet_getint). Qed.

Lemma quiet_below_min config key x : quiet (Policies.below_min config key x).
Proof. unfold Policies.below_min. quiet_by ltac:(apply quiet_getint). Qed.

Ltac quiet_leaf :=
  first [ apply quiet_min_int_fails | apply quiet_max_int_fails
        | apply quiet_min_float_fails | apply quiet_max_float_fails
        | apply quiet_flag_differs | apply quiet_above_max | apply quiet_below_min
        | apply quiet_get | apply quiet_getlist
        | apply quiet_read_nodelist | apply quiet_read_chanlist
        | apply quiet_check_keys ].

Lemma quiet_node_id_fails channel config : quiet (Policies.node_id_fails w channel config).
Proof.
  unfold Policies.node_id_fails. quiet_by quiet_leaf.
  generalize (@nil string). induction a as [|item l IH]; intros acc;
    cbn [Policies.expand_node_ids]; quiet_by ltac:(first [quiet_leaf | apply IH]).
Qed.

Lemma quiet_chan_id_fails channel config : quiet (Policies.chan_id_fails w channel config).
Proof.
  unfold Policies.chan_id_fails. quiet_by quiet_leaf.
  generalize (@nil Z). induction a as [|item l IH]; intros acc;
    cbn [Policies.expand_chan_ids]; quiet_by ltac:(first [quiet_leaf | apply IH]).
Qed.

Lemma quiet_match_by_node channel config : quiet (Policies.match_by_node w lnd channel config).
Proof.
  unfold Policies.match_by_node, Policies.get_node_info.
  quiet_by ltac:(first [quiet_leaf | apply quiet_node_id_fails]).
Qed.

Lemma quiet_parse_activity_period period : quiet (Policies.parse_activity_period period).
Proof. unfold Policies.parse_activity_period. quiet_by idtac. Qed.

Lemma quiet_match_by_chan channel config : quiet (Policies.match_by_chan w lnd channel config).
Proof.
  unfold Policies.match_by_chan, Policies.chan_identity, Policies.chan_balances,
    Policies.chan_peer, Policies.chan_age, Policies.chan_activity, Policies.truediv,
    Policies.get_chan_info, Policies.get_own_pubkey, Policies.get_info,
    Policies.get_forward_history.
  quiet_by ltac:(first [quiet_leaf | apply quiet_chan_id_fails
                       | apply quiet_parse_activity_period]).
Qed.

Lemma quiet_eval_matchers channel policy config :
  quiet (Policies.eval_matchers w lnd channel policy config).
Proof.
  unfold Policies.eval_matchers. generalize true.
  induction (Policies.namespaces_of (keys config)) as [|ns l IH]; intros b;
    cbn [Policies.eval_namespaces]; [apply quiet_ret|].
  unfold Policies.matcher_map.
  destruct (String.eqb ns "chan"); [|destruct (String.eqb ns "node")];
    quiet_by ltac:(first [apply quiet_match_by_chan | apply quiet_match_by_node | apply IH]).
Qed.

Lemma quiet_scan channel ps : forall p, quiet (Policies.scan w lnd channel ps p).
Proof.
  induction ps as [|[n s] ps IH]; intros p; [apply quiet_ret|].
  rewrite scan_cons. apply quiet_bind; [apply quiet_eval_matchers|].
  intros [|]; [|apply IH].
  destruct (Policy.apply p n s) as [q [|]]; [apply quiet_ret | apply IH].
Qed.

End QuietMatchers.

(** ** Resolution *)

Lemma matches_outcome w lnd channel (p : string * section) :
  matches w lnd channel p = true ->
  outcome (Policies.eval_matchers w lnd channel (fst p) (snd p)) = Ok true.
Proof.
  unfold matches.
  by destruct (outcome (Policies.eval_matchers w lnd channel p.1 p.2)) as [[|]|e].
Qed.

Lemma rejected_passed_over w lnd channel (ps : list (string * section)) :
  forallb (rejected w lnd channel) ps = true ->
  forallb (passed_over w lnd channel) ps = true /\
  matched_sections w lnd channel ps = [].
Proof.
  induction ps as [|p ps IH]; [done|]. cbn [forallb]. intros H.
  apply andb_prop in H as [H1 H2]. destruct (IH H2) as [IH1 IH2].
  unfold matched_sections in *. cbn [List.filter]. rewrite IH1.
  unfold rejected in H1. unfold passed_over at 1. unfold matches at 1.
  by destruct (outcome (Policies.eval_matchers w lnd channel p.1 p.2)) as [[|]|e].
Qed.

(** C1, as stated, fails: a policy that matches and has a [strategy] key does
    not stop the scan when the key has no value.  Policy [a] is such a
    policy, and the resolver goes on and returns policy [b]. *)
Lemma C1_empty_strategy_does_not_stop :
  has [("strategy", "")] "strategy" = true /\
  matches Sample.world Sample.lnd Sample.channel ("a", [("strategy", "")]) = true /\
  Policies.get_policy_for Sample.world Sample.lnd
    Sample.config_with_empty_strategy Sample.channel =
  ([], Ok (Some {| Policy.strategy := Some Policy.StrategyDelegate_of_self;
                   Policy.name := Some "b";
                   Policy.config := {[ "strategy" := "s" ]} |})).
Proof. repeat split; vm_compute; reflexivity. Qed.

(** C1, amended: resolution folds over the policies in declaration order.
    When the policies before [(n, s)] are passed over (no exception, and
    those that match have no non-empty strategy) and [(n, s)] matches with a
    non-empty [strategy], the resolver stops there, without looking at the
    later policies, and returns the policy named [n] whose configuration is
    the sections of the matching policies merged in order: it has every
    key of every one of them, and each key has the value of the last of
    them that has the key. *)
Theorem C1_resolution_folds_in_declaration_order
    (w : World) (lnd : Lnd) (cfg : Config) (channel : Channel)
    (pre post : list (string * section)) (n : string) (s : section) :
  policies cfg = pre ++ (n, s) :: post ->
  forallb (passed_over w lnd channel) pre = true ->
  matches w lnd channel (n, s) = true ->
  Policy.strategy_of s = true ->
  let ss := matched_sections w lnd channel pre ++ [s] in
  exists p : Policy.t,
    outcome (Policies.get_policy_for w lnd cfg channel) = Ok (Some p) /\
    trace (Policies.get_policy_for w lnd cfg channel) =
      trace (Policies.scan w lnd channel pre Policy.init) ++
      trace (Policies.eval_matchers w lnd channel n s) /\
    Policy.name p = Some n /\
    Policy.strategy p = Some Policy.StrategyDelegate_of_self /\
    Policy.config p = merged ss /\
    (forall s' k, In s' ss -> has s' k = true -> is_Some (Policy.config p !! k)) /\
    (forall ss1 s' ss2 k v,
        ss = ss1 ++ s' :: ss2 -> NoDup (keys s') -> sec_get s' k = Some v ->
        (forall s'', In s'' ss2 -> has s'' k = false) ->
        Policy.config p !! k = Some v).
Proof.
  intros Hcfg Hpre Hm Hfinal ss.
  pose proof (scan_passed_over w lnd channel pre Policy.init Hpre) as Hscan.
  apply matches_outcome in Hm. cbn [fst snd] in Hm.
  eexists. rewrite get_policy_for_cases, Hcfg. cbn zeta.
  rewrite (scan_app _ _ _ _ _ _ _ Hscan), scan_cons.
  destruct (Policies.eval_matchers w lnd channel n s) as [t r].
  cbn [outcome snd] in Hm. subst r.
  rewrite bind_Ok, (apply_final _ _ _ Hfinal). cbn [outcome trace fst snd].
  rewrite app_nil_r. split; [reflexivity|]. split; [reflexivity|].
  cbn [Policy.name Policy.strategy Policy.config Policy.init].
  assert (Hmerged :
    Policy.mask (fold_left Policy.mask (matched_sections w lnd channel pre) ∅) s
    = merged ss).
  { unfold merged, ss. by rewrite fold_left_app. }
  rewrite Hmerged. repeat split.
  - intros s' k Hin Hk. apply fold_mask_is_Some. right. eauto.
  - intros ss1 s' ss2 k v -> Hnd Hk Hlater. by apply fold_mask_last_write.
Qed.

(** The inheritance example of the specification: the returned policy [b]
    has [x] of the open policy [a] and both keys of [b]. *)
Lemma C1_witness :
  exists p : Policy.t,
    outcome (Policies.get_policy_for Sample.world Sample.lnd
               Sample.config_with_inheritance Sample.channel) = Ok (Some p) /\
    Policy.name p = Some "b" /\
    Policy.config p = {[ "x" := "1"; "chan.min_capacity" := "1"; "strategy" := "s" ]}.
Proof.
  destruct (C1_resolution_folds_in_declaration_order
              Sample.world Sample.lnd Sample.config_with_inheritance Sample.channel
              [("a", [("x", "1")])] [] "b"
              [("chan.min_capacity", "1"); ("strategy", "s")]
              eq_refl eq_refl eq_refl eq_refl)
    as (p & Hp & _ & Hn & _ & Hc & _).
  exists p. split; [exact Hp|]. split; [exact Hn|].
  rewrite Hc. vm_compute. reflexivity.
Defined.

(** C2: [get_policy_for] never raises.  When the scan over the policies
    raises [e], whatever [e] is, the resolver writes one error line for the
    channel after what the scan had written, and returns no policy; that is
    its only error line.  A caller that resolves a list of channels gets a
    result for each of them. *)
Theorem C2_exceptions_stay_in_the_channel
    (w : World) (lnd : Lnd) (cfg : Config) (channel : Channel) :
  (exists r, outcome (Policies.get_policy_for w lnd cfg channel) = Ok r) /\
  (forall e,
      outcome (Policies.scan w lnd channel (policies cfg) Policy.init) = Raise e ->
      Policies.get_policy_for w lnd cfg channel =
      (trace (Policies.scan w lnd channel (policies cfg) Policy.init)
         ++ [Debug (ErrorEvaluating (chan_id channel) e)],
       Ok None) /\
      quiet (Policies.scan w lnd channel (policies cfg) Policy.init)) /\
  (forall channels : list Channel,
      exists rs,
        outcome (for_each (Policies.get_policy_for w lnd cfg) channels) = Ok rs /\
        Forall2 (fun c r => outcome (Policies.get_policy_for w lnd cfg c) = Ok r)
                channels rs).
Proof.
  split; [apply get_policy_for_total|]. split.
  - intros e He. split; [|apply quiet_scan].
    rewrite get_policy_for_cases. cbn zeta. by rewrite He.
  - intros channels. apply for_each_total. intros c. apply get_policy_for_total.
Qed.

(** An unknown option of the channel matcher: the resolver writes the error
    line and returns no policy. *)
Lemma C2_witness :
  Policies.get_policy_for Sample.world Sample.lnd
    Sample.config_with_bogus_key Sample.channel =
  ([Debug (ErrorEvaluating (chan_id Sample.channel) (UnknownProperty "chan.bogus"))],
   Ok None).
Proof.
  exact (proj1 (proj1 (proj2 (C2_exceptions_stay_in_the_channel
           Sample.world Sample.lnd Sample.config_with_bogus_key Sample.channel))
           (UnknownProperty "chan.bogus") eq_refl)).
Defined.

(** C4, as stated, fails: with no policy at all and a default section that
    names no strategy, the resolver returns no policy. *)
Lemma C4_open_default_gives_no_policy :
  Policies.scan Sample.world Sample.lnd Sample.channel
    (policies Sample.config_with_open_default) Policy.init =
    ([], Ok (Policies.Exhausted Policy.init)) /\
  default Sample.config_with_open_default = Some [("base_fee_msat", "1000")] /\
  Policies.get_policy_for Sample.world Sample.lnd
    Sample.config_with_open_default Sample.channel = ([], Ok None).
Proof. repeat split. Qed.

(** C4, amended: when the scan runs out of policies with the collected
    policy [p] and a default section [d] is configured, the resolver merges
    [d] into the configuration of [p] by the rule of the other sections; it
    returns that policy, named [default], when [d] has a non-empty
    [strategy], and no policy otherwise. *)
Theorem C4_default_applies_when_final
    (w : World) (lnd : Lnd) (cfg : Config) (channel : Channel)
    (p : Policy.t) (d : section) :
  outcome (Policies.scan w lnd channel (policies cfg) Policy.init)
    = Ok (Policies.Exhausted p) ->
  default cfg = Some d ->
  Policies.get_policy_for w lnd cfg channel =
  (trace (Policies.scan w lnd channel (policies cfg) Policy.init),
   Ok (if Policy.strategy_of d
       then Some {| Policy.strategy := Some Policy.StrategyDelegate_of_self;
                    Policy.name := Some "default";
                    Policy.config := Policy.mask (Policy.config p) d |}
       else None)).
Proof.
  intros Hscan Hdef. rewrite get_policy_for_cases. cbn zeta. rewrite Hscan.
  unfold Policies.apply_default, Policies.default_section. rewrite Hdef.
  destruct d as [|kv d]; [reflexivity|].
  destruct (Policy.strategy_of (kv :: d)) eqn:Hs.
  - by rewrite (apply_final _ _ _ Hs).
  - by rewrite (apply_open _ _ _ Hs).
Qed.

(** The sample channel falls through to a final default section. *)
Lemma C4_witness :
  Policies.get_policy_for Sample.world Sample.lnd
    Sample.config_with_default Sample.channel =
  ([], Ok (Some {| Policy.strategy := Some Policy.StrategyDelegate_of_self;
                   Policy.name := Some "default";
                   Policy.config :=
                     Policy.mask ∅ [("strategy", "static"); ("fee_ppm", "10")] |})).
Proof.
  exact (C4_default_applies_when_final
           Sample.world Sample.lnd Sample.config_with_default Sample.channel
           Policy.init [("strategy", "static"); ("fee_ppm", "10")]
           eq_refl eq_refl).
Defined.

(** ** The channel matcher, part by part *)

Lemma and_then_bind_ext {A} (m : M A) (f p : A -> M bool) (k : M bool) :
  (forall x, f x = and_then (p x) k) -> bind m f = and_then (bind m p) k.
Proof.
  intros H. rewrite <- (and_then_bind m p k). destruct m as [t [a|e]]; [|reflexivity].
  by rewrite !bind_Ok, H.
Qed.

Lemma and_then_assoc (p q k : M bool) :
  and_then p (and_then q k) = and_then (and_then p q) k.
Proof.
  change (and_then p (and_then q k))
    with (bind p (fun b : bool => if b then and_then q k else ret false)).
  change (and_then p q) with (bind p (fun b : bool => if b then q else ret false)).
  apply and_then_bind_ext.
  intros [|]; [reflexivity | by rewrite and_then_false].
Qed.

Section ChanParts.

Variable w : World.
Variable lnd : Lnd.
Variable channel : Channel.
Variable config : section.

Lemma chan_identity_and_then (k : M bool) :
  Policies.chan_identity w channel config k =
  and_then (Policies.chan_identity w channel config (ret true)) k.
Proof.
  unfold Policies.chan_identity. rewrite <- (and_then_true k) at 1.
  by rewrite !and_then_return_False_if.
Qed.

Lemma chan_balances_and_then (k : M bool) :
  Policies.chan_balances channel config k =
  and_then (Policies.chan_balances channel config (ret true)) k.
Proof.
  unfold Policies.chan_balances. apply and_then_bind_ext. intros ratio.
  rewrite <- (and_then_true k) at 1. by rewrite !and_then_return_False_if.
Qed.

Lemma chan_peer_and_then (k : M bool) :
  Policies.chan_peer lnd channel config k =
  and_then (Policies.chan_peer lnd channel config (ret true)) k.
Proof.
  unfold Policies.chan_peer. apply and_then_bind_ext. intros [ci|].
  - apply and_then_bind_ext. intros pk. cbn zeta.
    rewrite <- (and_then_true k) at 1. by rewrite !and_then_return_False_if.
  - by rewrite and_then_false.
Qed.

Lemma chan_age_and_then (k : Z -> M bool) :
  Policies.chan_age w lnd channel config k =
  and_then (Policies.chan_age w lnd channel config (fun _ => ret true))
           (match channel_age w lnd channel with
            | Some age => k age
            | None => ret false
            end).
Proof.
  unfold Policies.chan_age, Policies.get_info, channel_age.
  rewrite !bind_assoc. apply and_then_bind_ext. intros _. rewrite !bind_ret.
  destruct (lnd_info lnd) as [info|]; [|by rewrite and_then_false].
  destruct (lnd_to_cl_scid w (chan_id channel)) as [[block tx] output].
  rewrite <- (and_then_true (k _)) at 1. by rewrite !and_then_return_False_if.
Qed.

(** The body up to a cut, followed by any rest [k]. *)
Lemma after_identity (k : M bool) :
  (run Policies.check_keys "chan" Policies.accepted_chan (keys config) ;;
   Policies.chan_identity w channel config k) =
  and_then (chan_upto_identity w channel config) k.
Proof.
  unfold chan_upto_identity.
  apply and_then_bind_ext. intros _. apply chan_identity_and_then.
Qed.

Lemma after_balances (k : M bool) :
  (run Policies.check_keys "chan" Policies.accepted_chan (keys config) ;;
   Policies.chan_identity w channel config
     (Policies.chan_balances channel config k)) =
  and_then (chan_upto_balances w channel config) k.
Proof.
  unfold chan_upto_balances. rewrite !after_identity.
  by rewrite (chan_balances_and_then k), and_then_assoc.
Qed.

Lemma after_peer (k : M bool) :
  (run Policies.check_keys "chan" Policies.accepted_chan (keys config) ;;
   Policies.chan_identity w channel config
     (Policies.chan_balances channel config
        (Policies.chan_peer lnd channel config k))) =
  and_then (chan_upto_peer w lnd channel config) k.
Proof.
  unfold chan_upto_peer. rewrite !after_balances.
  by rewrite (chan_peer_and_then k), and_then_assoc.
Qed.

Lemma after_age (k : Z -> M bool) :
  (run Policies.check_keys "chan" Policies.accepted_chan (keys config) ;;
   Policies.chan_identity w channel config
     (Policies.chan_balances channel config
        (Policies.chan_peer lnd channel config
           (Policies.chan_age w lnd channel config k)))) =
  and_then (chan_upto_age w lnd channel config)
    (match channel_age w lnd channel with
     | Some age => k age
     | None => ret false
     end).
Proof.
  unfold chan_upto_age. rewrite !after_peer.
  by rewrite (chan_age_and_then k), and_then_assoc.
Qed.

(** Each cut is the one before it and one more part. *)
Lemma chan_upto_balances_eq :
  chan_upto_balances w channel config =
  and_then (chan_upto_identity w channel config)
           (Policies.chan_balances channel config (ret true)).
Proof. apply after_identity. Qed.

Lemma chan_upto_peer_eq :
  chan_upto_peer w lnd channel config =
  and_then (chan_upto_balances w channel config)
           (Policies.chan_peer lnd channel config (ret true)).
Proof. apply after_balances. Qed.

Lemma chan_upto_age_eq :
  chan_upto_age w lnd channel config =
  and_then (chan_upto_peer w lnd channel config)
           (Policies.chan_age w lnd channel config (fun _ => ret true)).
Proof. apply after_peer. Qed.

(** [match_by_chan] is each of its cuts followed by the rest of the body. *)
Lemma match_by_chan_from_identity :
  Policies.match_by_chan w lnd channel config =
  and_then (chan_upto_identity w channel config)
    (Policies.chan_balances channel config
       (Policies.chan_peer lnd channel config
          (Policies.chan_age w lnd channel config
             (Policies.chan_activity lnd channel config)))).
Proof. apply after_identity. Qed.

Lemma match_by_chan_from_balances :
  Policies.match_by_chan w lnd channel config =
  and_then (chan_upto_balances w channel config)
    (Policies.chan_peer lnd channel config
       (Policies.chan_age w lnd channel config
          (Policies.chan_activity lnd channel config))).
Proof. apply after_balances. Qed.

Lemma match_by_chan_from_peer :
  Policies.match_by_chan w lnd channel config =
  and_then (chan_upto_peer w lnd channel config)
    (Policies.chan_age w lnd channel config
       (Policies.chan_activity lnd channel config)).
Proof. apply after_peer. Qed.

Lemma match_by_chan_from_age :
  Policies.match_by_chan w lnd channel config =
  and_then (chan_upto_age w lnd channel config)
    (match channel_age w lnd channel with
     | Some age => Policies.chan_activity lnd channel config age
     | None => ret false
     end).
Proof. apply after_age. Qed.

(** Past the age bounds there is an age. *)
Lemma chan_upto_age_has_age :
  outcome (chan_upto_age w lnd channel config) = Ok true ->
  exists age, channel_age w lnd channel = Some age.
Proof.
  rewrite chan_upto_age_eq. intros H. apply outcome_and_then in H as [_ H].
  unfold Policies.chan_age, Policies.get_info in H.
  rewrite bind_assoc, outcome_bind in H. cbn [emit outcome snd] in H.
  rewrite bind_ret in H. unfold channel_age.
  destruct (lnd_info lnd) as [info|]; [|discriminate].
  destruct (lnd_to_cl_scid w (chan_id channel)) as [[block tx] output]. eauto.
Qed.

End ChanParts.

(** ** The namespace dispatcher *)

Section Dispatcher.

Variable w : World.
Variable lnd : Lnd.
Variable channel : Channel.
Variable policy : string.
Variable config : section.

Lemma matcher_map_known (ns : string) :
  known_namespace ns = true ->
  (ns = "chan" /\ Policies.matcher_map w lnd ns = Some (Policies.match_by_chan w lnd)) \/
  (ns = "node" /\ Policies.matcher_map w lnd ns = Some (Policies.match_by_node w lnd)).
Proof.
  unfold known_namespace, Policies.matcher_map.
  destruct (String.eqb_spec ns "chan") as [->|_]; [by left|].
  destruct (String.eqb_spec ns "node") as [->|_]; [by right | discriminate].
Qed.

Lemma matcher_map_unknown (ns : string) :
  known_namespace ns = false -> Policies.matcher_map w lnd ns = None.
Proof.
  unfold known_namespace, Policies.matcher_map.
  by destruct (String.eqb ns "chan"), (String.eqb ns "node").
Qed.

Lemma matcher_map_chan :
  Policies.matcher_map w lnd "chan" = Some (Policies.match_by_chan w lnd).
Proof. reflexivity. Qed.

Lemma matcher_map_node :
  Policies.matcher_map w lnd "node" = Some (Policies.match_by_node w lnd).
Proof. reflexivity. Qed.

(** Once a matcher has said no, the answer is no. *)
Lemma eval_namespaces_false (nss : list string) :
  outcome (Policies.eval_namespaces w lnd channel policy config nss false) = Ok false.
Proof.
  induction nss as [|ns nss IH]; [reflexivity|]. cbn [Policies.eval_namespaces].
  destruct (Policies.matcher_map w lnd ns) as [f|]; [|reflexivity].
  by rewrite bind_ret.
Qed.

(** A namespace whose matcher cannot say yes, or that has no matcher,
    keeps the policy from matching. *)
Lemma eval_namespaces_never (ns : string) (nss : list string) :
  In ns nss ->
  (forall f, Policies.matcher_map w lnd ns = Some f -> outcome (f channel config) <> Ok true) ->
  forall b, outcome (Policies.eval_namespaces w lnd channel policy config nss b) <> Ok true.
Proof.
  intros Hin Hns. induction nss as [|ns' nss IH]; [done|]. intros b.
  cbn [Policies.eval_namespaces].
  destruct (Policies.matcher_map w lnd ns') as [f|] eqn:Hf; [|discriminate].
  rewrite outcome_bind. destruct b.
  - destruct (outcome (f channel config)) as [m|e] eqn:Hm; [|discriminate].
    destruct Hin as [->|Hin]; [|by apply IH].
    destruct m; [by destruct (Hns f Hf) | by rewrite eval_namespaces_false].
  - cbn [ret outcome snd]. by rewrite eval_namespaces_false.
Qed.


(** Node keys first, all satisfied, then a channel key: an exception of the
    channel matcher is the exception of the dispatcher. *)
Lemma eval_namespaces_chan_raises (pre post : list string) (e : exn) :
  Forall (eq "node") pre ->
  (pre <> [] -> outcome (Policies.match_by_node w lnd channel config) = Ok true) ->
  outcome (Policies.match_by_chan w lnd channel config) = Raise e ->
  outcome (Policies.eval_namespaces w lnd channel policy config (pre ++ "chan" :: post) true)
    = Raise e.
Proof.
  intros Hpre Hnode Hchan. induction pre as [|ns pre IH].
  - cbn [app Policies.eval_namespaces]. rewrite matcher_map_chan, outcome_bind.
    by rewrite Hchan.
  - apply Forall_cons in Hpre as [<- Hpre].
    rewrite <- app_comm_cons. cbn [Policies.eval_namespaces].
    rewrite matcher_map_node, outcome_bind, Hnode by done.
    apply IH; [exact Hpre | intros _; by apply Hnode].
Qed.

Lemma has_namespace_In (ns : string) :
  has_namespace ns config = true -> In ns (Policies.namespaces_of (keys config)).
Proof.
  unfold has_namespace. intros H. apply existsb_exists in H as (x & Hin & Hx).
  apply String.eqb_eq in Hx. by subst.
Qed.

End Dispatcher.

(** An exception of a policy's matchers, after policies that are passed
    over, ends the resolution with the error line and no policy. *)
Lemma get_policy_for_raises (w : World) (lnd : Lnd) (cfg : Config) (channel : Channel)
    (pre post : list (string * section)) (n : string) (s : section) (e : exn) :
  policies cfg = pre ++ (n, s) :: post ->
  forallb (passed_over w lnd channel) pre = true ->
  outcome (Policies.eval_matchers w lnd channel n s) = Raise e ->
  Policies.get_policy_for w lnd cfg channel =
  (trace (Policies.scan w lnd channel pre Policy.init)
     ++ trace (Policies.eval_matchers w lnd channel n s)
     ++ [Debug (ErrorEvaluating (chan_id channel) e)],
   Ok None).
Proof.
  intros Hcfg Hpre He.
  pose proof (scan_passed_over w lnd channel pre Policy.init Hpre) as Hscan.
  rewrite get_policy_for_cases, Hcfg. cbn zeta.
  rewrite (scan_app _ _ _ _ _ _ _ Hscan), scan_cons.
  destruct (Policies.eval_matchers w lnd channel n s) as [t r].
  cbn [outcome snd] in He. subst r. rewrite bind_Raise.
  cbn [outcome trace fst snd]. by rewrite app_assoc.
Qed.

(** ** A channel that no policy matches *)

(** When no policy matches, either every policy is evaluated to a
    non-match, or the evaluation of one of them raises after policies that
    are evaluated to a non-match. *)
Lemma first_raise (w : World) (lnd : Lnd) (channel : Channel)
    (ps : list (string * section)) :
  forallb (fun p => negb (matches w lnd channel p)) ps = true ->
  forallb (rejected w lnd channel) ps = false ->
  exists pre n s post e,
    ps = pre ++ (n, s) :: post /\
    forallb (rejected w lnd channel) pre = true /\
    outcome (Policies.eval_matchers w lnd channel n s) = Raise e.
Proof.
  induction ps as [|[n s] ps IH]; [discriminate 2|]. cbn [forallb].
  intros Hno Hrej. apply andb_prop in Hno as [Hn Hno].
  destruct (rejected w lnd channel (n, s)) eqn:Hr.
  - destruct (IH Hno Hrej) as (pre & n' & s' & post & e & -> & Hpre & He).
    exists ((n, s) :: pre), n', s', post, e. cbn [forallb]. by rewrite Hr, Hpre.
  - exists [], n, s, ps. unfold matches in Hn. unfold rejected in Hr. cbn [fst snd] in *.
    destruct (outcome (Policies.eval_matchers w lnd channel n s)) as [[|]|e];
      [discriminate Hn | discriminate Hr | by exists e].
Qed.

(** C3, as stated, fails: the only policy of the configuration has an option
    the channel matcher does not know, so no policy matches the sample
    channel, and there is no default section; the resolver returns no
    policy, and it has written an error line. *)
Lemma C3_error_line_without_a_match :
  forallb (fun p => negb (matches Sample.world Sample.lnd Sample.channel p))
    (policies Sample.config_with_bogus_key) = true /\
  default Sample.config_with_bogus_key = None /\
  Policies.get_policy_for Sample.world Sample.lnd
    Sample.config_with_bogus_key Sample.channel =
  ([Debug (ErrorEvaluating (chan_id Sample.channel) (UnknownProperty "chan.bogus"))],
   Ok None) /\
  ~ quiet (Policies.get_policy_for Sample.world Sample.lnd
             Sample.config_with_bogus_key Sample.channel).
Proof.
  repeat split. intros H. apply Forall_inv in H. discriminate H.
Qed.

(** C3, amended: when no policy matches the channel and no default section
    is configured, the resolver returns no policy and does not raise.  It
    writes no error line exactly when every policy is evaluated to a
    non-match, and then it adds nothing to what the matchers wrote.  When
    the evaluation of a policy raises [e], after policies that are
    evaluated to a non-match, it writes the error line for [e] after what
    the matchers wrote, and that policy is the last one it looks at. *)
Theorem C3_no_match_no_default_is_no_policy
    (w : World) (lnd : Lnd) (cfg : Config) (channel : Channel) :
  forallb (fun p => negb (matches w lnd channel p)) (policies cfg) = true ->
  default cfg = None ->
  outcome (Policies.get_policy_for w lnd cfg channel) = Ok None /\
  (quiet (Policies.get_policy_for w lnd cfg channel) <->
   forallb (rejected w lnd channel) (policies cfg) = true) /\
  (forallb (rejected w lnd channel) (policies cfg) = true ->
   Policies.get_policy_for w lnd cfg channel =
   (trace (Policies.scan w lnd channel (policies cfg) Policy.init), Ok None)) /\
  (forall pre n s post e,
      policies cfg = pre ++ (n, s) :: post ->
      forallb (rejected w lnd channel) pre = true ->
      outcome (Policies.eval_matchers w lnd channel n s) = Raise e ->
      Policies.get_policy_for w lnd cfg channel =
      (trace (Policies.scan w lnd channel pre Policy.init)
         ++ trace (Policies.eval_matchers w lnd channel n s)
         ++ [Debug (ErrorEvaluating (chan_id channel) e)],
       Ok None)).
Proof.
  intros Hno Hdef.
  assert (Hall : forallb (rejected w lnd channel) (policies cfg) = true ->
            Policies.get_policy_for w lnd cfg channel =
            (trace (Policies.scan w lnd channel (policies cfg) Policy.init), Ok None)).
  { intros Hrej. destruct (rejected_passed_over _ _ _ _ Hrej) as [Hpass _].
    pose proof (scan_passed_over w lnd channel _ Policy.init Hpass) as Hscan.
    rewrite get_policy_for_cases. cbn zeta. rewrite Hscan.
    unfold Policies.apply_default, Policies.default_section. by rewrite Hdef. }
  assert (Hone : forall pre n s post e,
            policies cfg = pre ++ (n, s) :: post ->
            forallb (rejected w lnd channel) pre = true ->
            outcome (Policies.eval_matchers w lnd channel n s) = Raise e ->
            Policies.get_policy_for w lnd cfg channel =
            (trace (Policies.scan w lnd channel pre Policy.init)
               ++ trace (Policies.eval_matchers w lnd channel n s)
               ++ [Debug (ErrorEvaluating (chan_id channel) e)],
             Ok None)).
  { intros pre n s post e Hcfg Hpre He.
    destruct (rejected_passed_over _ _ _ _ Hpre) as [Hpass _].
    by apply (get_policy_for_raises _ _ _ _ pre post). }
  split; [|split; [|split; [exact Hall | exact Hone]]].
  - destruct (forallb (rejected w lnd channel) (policies cfg)) eqn:Hrej.
    + by rewrite (Hall eq_refl).
    + destruct (first_raise _ _ _ _ Hno Hrej) as (pre & n & s & post & e & Hcfg & Hpre & He).
      by rewrite (Hone _ _ _ _ _ Hcfg Hpre He).
  - split.
    + intros Hquiet.
      destruct (forallb (rejected w lnd channel) (policies cfg)) eqn:Hrej; [reflexivity|].
      destruct (first_raise _ _ _ _ Hno Hrej) as (pre & n & s & post & e & Hcfg & Hpre & He).
      rewrite (Hone _ _ _ _ _ Hcfg Hpre He) in Hquiet. unfold quiet in Hquiet.
      cbn [trace fst] in Hquiet.
      apply Forall_app in Hquiet as [_ Hquiet]. apply Forall_app in Hquiet as [_ Hquiet].
      apply Forall_inv in Hquiet. discriminate Hquiet.
    + intros Hrej. rewrite (Hall Hrej). apply quiet_scan.
Qed.

(** A channel of capacity 100 against a policy that asks for 1000000. *)
Lemma C3_witness :
  Policies.get_policy_for Sample.world Sample.lnd
    Sample.config_without_match Sample.channel = ([], Ok None).
Proof.
  exact (proj1 (proj2 (proj2 (C3_no_match_no_default_is_no_policy
           Sample.world Sample.lnd Sample.config_without_match Sample.channel
           eq_refl eq_refl))) eq_refl).
Defined.

(** ** The activity period *)

Lemma mulmap_outside (c : ascii) :
  ~ In c period_suffixes -> Policies.mulmap c = None.
Proof.
  intros H. unfold Policies.mulmap.
  destruct (Ascii.eqb_spec c "s") as [->|_]; [destruct H; cbn; tauto|].
  destruct (Ascii.eqb_spec c "m") as [->|_]; [destruct H; cbn; tauto|].
  destruct (Ascii.eqb_spec c "h") as [->|_]; [destruct H; cbn; tauto|].
  destruct (Ascii.eqb_spec c "d") as [->|_]; [destruct H; cbn; tauto|].
  reflexivity.
Qed.

Lemma parse_unknown_suffix (period : string) (c : ascii) :
  py_int period = None ->
  last_char period = Some c ->
  ~ In c period_suffixes ->
  Policies.parse_activity_period period = ([], Raise (KeyError (String c EmptyString))).
Proof.
  intros Hint Hlast Hc. unfold Policies.parse_activity_period.
  rewrite Hint, Hlast. cbn [or_raise]. rewrite bind_ret.
  by rewrite (mulmap_outside _ Hc).
Qed.

Lemma chan_activity_raises (lnd : Lnd) (channel : Channel) (config : section)
    (age : Z) (period : string) (e : exn) :
  sec_get config "chan.activity_period" = Some period ->
  Policies.parse_activity_period period = ([], Raise e) ->
  Policies.chan_activity lnd channel config age = ([], Raise e).
Proof.
  intros Hget Hparse. unfold Policies.chan_activity, has, get.
  rewrite Hget. cbn [or_raise]. by rewrite bind_ret, Hparse.
Qed.

Lemma match_by_chan_activity_raises (w : World) (lnd : Lnd) (channel : Channel)
    (config : section) (period : string) (e : exn) :
  sec_get config "chan.activity_period" = Some period ->
  Policies.parse_activity_period period = ([], Raise e) ->
  outcome (chan_upto_age w lnd channel config) = Ok true ->
  Policies.match_by_chan w lnd channel config =
  (trace (chan_upto_age w lnd channel config), Raise e).
Proof.
  intros Hget Hparse Hupto.
  destruct (chan_upto_age_has_age _ _ _ _ Hupto) as [age Hage].
  rewrite match_by_chan_from_age, Hage, (and_then_passes _ _ Hupto).
  rewrite (chan_activity_raises _ _ _ _ _ _ Hget Hparse).
  cbn [trace outcome fst snd]. by rewrite app_nil_r.
Qed.

(** C8: the parser gives 300 for 5m, 10800 for 3h and 90 for 90.  For a
    token that is not an integer by itself and whose last character [c] is
    none of s, m, h, d, it raises the lookup error [KeyError c] and gives no
    value.  The error goes up unchanged: through the channel matcher whenever
    the criteria before the activity window hold, through the dispatcher
    when the channel matcher is the one it runs (after node keys that are
    satisfied, if any), and through the resolver, which ends the channel's
    resolution with the error line and no policy. *)
Theorem C8_activity_period_parser :
  Policies.parse_activity_period "5m" = ([], Ok 300) /\
  Policies.parse_activity_period "3h" = ([], Ok 10800) /\
  Policies.parse_activity_period "90" = ([], Ok 90) /\
  forall (period : string) (c : ascii),
    py_int period = None ->
    last_char period = Some c ->
    ~ In c period_suffixes ->
    let e := KeyError (String c EmptyString) in
    Policies.parse_activity_period period = ([], Raise e) /\
    is_LookupError e = true /\
    (forall w lnd channel config,
        sec_get config "chan.activity_period" = Some period ->
        outcome (chan_upto_age w lnd channel config) = Ok true ->
        Policies.match_by_chan w lnd channel config =
        (trace (chan_upto_age w lnd channel config), Raise e)) /\
    (forall w lnd channel policy config pre post,
        Policies.namespaces_of (keys config) = pre ++ "chan" :: post ->
        Forall (eq "node") pre ->
        (pre <> [] -> outcome (Policies.match_by_node w lnd channel config) = Ok true) ->
        outcome (Policies.match_by_chan w lnd channel config) = Raise e ->
        outcome (Policies.eval_matchers w lnd channel policy config) = Raise e) /\
    (forall w lnd cfg channel pre post n s,
        policies cfg = pre ++ (n, s) :: post ->
        forallb (passed_over w lnd channel) pre = true ->
        outcome (Policies.eval_matchers w lnd channel n s) = Raise e ->
        Policies.get_policy_for w lnd cfg channel =
        (trace (Policies.scan w lnd channel pre Policy.init)
           ++ trace (Policies.eval_matchers w lnd channel n s)
           ++ [Debug (ErrorEvaluating (chan_id channel) e)],
         Ok None)).
Proof.
  do 3 (split; [reflexivity|]).
  intros period c Hint Hlast Hc e.
  pose proof (parse_unknown_suffix _ _ Hint Hlast Hc) as Hparse.
  split; [exact Hparse|]. split; [reflexivity|]. split; [|split].
  - intros w lnd channel config Hget Hupto.
    by apply (match_by_chan_activity_raises _ _ _ _ period).
  - intros w lnd channel policy config pre post Hns Hpre Hnode Hchan.
    unfold Policies.eval_matchers. rewrite Hns.
    by apply eval_namespaces_chan_raises.
  - intros w lnd cfg channel pre post n s Hcfg Hpre He.
    by apply (get_policy_for_raises _ _ _ _ pre post).
Qed.

(** The token 5x, in the only policy of a configuration. *)
Lemma C8_witness :
  Policies.parse_activity_period "5x" = ([], Raise (KeyError "x")) /\
  Policies.get_policy_for Sample.world Sample.lnd
    Sample.config_with_bad_period Sample.channel =
  ([GetChanInfo (chan_id Sample.channel); GetOwnPubkey; GetInfo;
    Debug (ErrorEvaluating (chan_id Sample.channel) (KeyError "x"))],
   Ok None).
Proof.
  assert (Hx : ~ In "x"%char period_suffixes).
  { intros [H|[H|[H|[H|[]]]]]; discriminate H. }
  destruct (proj2 (proj2 (proj2 C8_activity_period_parser)) "5x" "x"%char
              eq_refl eq_refl Hx) as (Hparse & _ & Hchan & Hdisp & Hres).
  split; [exact Hparse|].
  specialize (Hchan Sample.world Sample.lnd Sample.channel
                Sample.section_with_bad_period eq_refl eq_refl).
  specialize (Hdisp Sample.world Sample.lnd Sample.channel "a"
                Sample.section_with_bad_period [] [] eq_refl ltac:(constructor)
                (fun H => False_ind _ (H eq_refl))
                (f_equal snd Hchan)).
  exact (Hres Sample.world Sample.lnd Sample.config_with_bad_period Sample.channel
           [] [] "a" Sample.section_with_bad_period eq_refl eq_refl Hdisp).
Defined.

(** ** The balance ratio *)

Lemma truediv_zero (a : Z) : Policies.truediv a 0 = ([], Raise ZeroDivisionError).
Proof. reflexivity. Qed.

Lemma truediv_raises_zero_division (a b : Z) :
  outcome (Policies.truediv a b) = Raise ZeroDivisionError <-> b = 0.
Proof.
  unfold Policies.truediv. destruct (Z.eqb_spec b 0) as [->|Hb].
  - by split.
  - destruct (is_infinity (float_div (Z2SF a) (Z2SF b))); by split.
Qed.

Lemma chan_balances_zero (channel : Channel) (config : section) (k : M bool) :
  local_balance channel + remote_balance channel = 0 ->
  Policies.chan_balances channel config k = ([], Raise ZeroDivisionError).
Proof. intros H. unfold Policies.chan_balances. by rewrite H, truediv_zero. Qed.

(** C9, as stated, fails: the empty channel against a section with the one
    key [chan.private] is a non-match, found before the ratio is computed;
    nothing is raised. *)
Lemma C9_empty_channel_without_division :
  local_balance Sample.empty_channel + remote_balance Sample.empty_channel = 0 /\
  has_namespace "chan" Sample.section_private = true /\
  Policies.match_by_chan Sample.world Sample.lnd Sample.empty_channel
    Sample.section_private = ([], Ok false) /\
  Policies.eval_matchers Sample.world Sample.lnd Sample.empty_channel "p"
    Sample.section_private = ([], Ok false).
Proof. repeat split. Qed.

(** C9, amended: the ratio is computed as soon as the key check and the
    [chan.id], [chan.initiator] and [chan.private] criteria are passed, and
    before any bound is looked up: on a channel with
    [local_balance + remote_balance = 0] the part of the body that starts at
    line 201 raises [ZeroDivisionError] whatever the section holds, and so
    does the matcher whenever the criteria before line 201 hold.  The
    division raises [ZeroDivisionError] exactly when the sum is 0, so it has
    a value only if the sum is not 0, which for balances that are not
    negative means a sum above 0. *)
Theorem C9_ratio_divides_by_the_balance_sum :
  (forall (channel : Channel) (config : section) (k : M bool),
      local_balance channel + remote_balance channel = 0 ->
      Policies.chan_balances channel config k = ([], Raise ZeroDivisionError)) /\
  (forall (w : World) (lnd : Lnd) (channel : Channel) (config : section),
      local_balance channel + remote_balance channel = 0 ->
      outcome (chan_upto_identity w channel config) = Ok true ->
      Policies.match_by_chan w lnd channel config =
      (trace (chan_upto_identity w channel config), Raise ZeroDivisionError)) /\
  (forall a b : Z,
      outcome (Policies.truediv a b) = Raise ZeroDivisionError <-> b = 0) /\
  (forall (channel : Channel) (ratio : float),
      0 <= local_balance channel ->
      0 <= remote_balance channel ->
      outcome (Policies.truediv (local_balance channel)
                 (local_balance channel + remote_balance channel)) = Ok ratio ->
      0 < local_balance channel + remote_balance channel).
Proof.
  split; [exact chan_balances_zero|]. split; [|split].
  - intros w lnd channel config Hsum Hupto.
    rewrite match_by_chan_from_identity, (and_then_passes _ _ Hupto).
    rewrite (chan_balances_zero _ _ _ Hsum). cbn [trace outcome fst snd].
    by rewrite app_nil_r.
  - exact truediv_raises_zero_division.
  - intros channel ratio Hl Hr Hq.
    assert (local_balance channel + remote_balance channel <> 0); [|lia].
    intros H0. rewrite H0, truediv_zero in Hq. discriminate Hq.
Qed.

(** The empty channel against a capacity bound: no ratio is configured, and
    the matcher raises. *)
Lemma C9_witness :
  Policies.match_by_chan Sample.world Sample.lnd Sample.empty_channel
    Sample.section_capacity = ([], Raise ZeroDivisionError).
Proof.
  exact (proj1 (proj2 C9_ratio_divides_by_the_balance_sum)
           Sample.world Sample.lnd Sample.empty_channel Sample.section_capacity
           eq_refl eq_refl).
Defined.

(** ** Channel info and node info *)

Lemma bind_emit {B} (ev : event) (f : unit -> M B) :
  bind (emit ev) f = (ev :: trace (f tt), outcome (f tt)).
Proof. unfold emit. by rewrite bind_Ok. Qed.

Section Lookups.

Variable w : World.
Variable lnd : Lnd.
Variable channel : Channel.
Variable config : section.

(** Line 219 comes first in its part, whatever the section holds. *)
Lemma chan_peer_calls (k : M bool) :
  exists t, trace (Policies.chan_peer lnd channel config k)
            = GetChanInfo (chan_id channel) :: t.
Proof.
  unfold Policies.chan_peer, Policies.get_chan_info.
  rewrite bind_assoc, bind_emit. cbn [trace fst]. eauto.
Qed.

Lemma chan_peer_absent (k : M bool) :
  lnd_chan_info lnd (chan_id channel) = None ->
  Policies.chan_peer lnd channel config k = ([GetChanInfo (chan_id channel)], Ok false).
Proof.
  intros H. unfold Policies.chan_peer, Policies.get_chan_info.
  by rewrite bind_assoc, bind_emit, bind_ret, H.
Qed.

(** Line 234 comes first in its part, whatever the section holds. *)
Lemma chan_age_calls (k : Z -> M bool) :
  exists t, trace (Policies.chan_age w lnd channel config k) = GetInfo :: t.
Proof.
  unfold Policies.chan_age, Policies.get_info.
  rewrite bind_assoc, bind_emit. cbn [trace fst]. eauto.
Qed.

Lemma chan_age_absent (k : Z -> M bool) :
  lnd_info lnd = None ->
  Policies.chan_age w lnd channel config k = ([GetInfo], Ok false).
Proof.
  intros H. unfold Policies.chan_age, Policies.get_info.
  by rewrite bind_assoc, bind_emit, bind_ret, H.
Qed.

Lemma min_int_fails_absent (key : string) (x : Z) :
  has config key = false -> Policies.min_int_fails config key x = ret false.
Proof. intros H. unfold Policies.min_int_fails. by rewrite H. Qed.

Lemma max_int_fails_absent (key : string) (x : Z) :
  has config key = false -> Policies.max_int_fails config key x = ret false.
Proof. intros H. unfold Policies.max_int_fails. by rewrite H. Qed.

Lemma return_False_if_ret_false (k : M bool) :
  (return_False_when ret false ;; k) = k.
Proof. unfold return_False_if. by rewrite bind_ret. Qed.

(** With channel info and no bound on the peer's fees, the part of lines
    219-232 is passed. *)
Lemma chan_peer_without_fee_bounds (ci : ChanInfo) :
  lnd_chan_info lnd (chan_id channel) = Some ci ->
  has config "chan.min_base_fee_msat" = false ->
  has config "chan.max_base_fee_msat" = false ->
  has config "chan.min_fee_ppm" = false ->
  has config "chan.max_fee_ppm" = false ->
  Policies.chan_peer lnd channel config (ret true) =
  ([GetChanInfo (chan_id channel); GetOwnPubkey], Ok true).
Proof.
  intros Hci H1 H2 H3 H4. unfold Policies.chan_peer, Policies.get_chan_info,
    Policies.get_own_pubkey.
  rewrite bind_assoc, bind_emit, bind_ret, Hci, bind_assoc, bind_emit, bind_ret.
  cbn zeta.
  rewrite !min_int_fails_absent, !max_int_fails_absent by assumption.
  by rewrite !return_False_if_ret_false.
Qed.

Lemma match_by_chan_needs_chan_info :
  outcome (Policies.match_by_chan w lnd channel config) = Ok true ->
  lnd_chan_info lnd (chan_id channel) <> None.
Proof.
  rewrite match_by_chan_from_balances. intros H Habs.
  apply outcome_and_then in H as [_ H].
  rewrite (chan_peer_absent _ Habs) in H. discriminate H.
Qed.

Lemma match_by_chan_needs_info :
  outcome (Policies.match_by_chan w lnd channel config) = Ok true ->
  lnd_info lnd <> None.
Proof.
  rewrite match_by_chan_from_peer. intros H Habs.
  apply outcome_and_then in H as [_ H].
  rewrite (chan_age_absent _ Habs) in H. discriminate H.
Qed.

End Lookups.

(** C10: past the balance and capacity criteria the channel matcher asks
    for the channel info, whatever the section holds, and a missing answer
    makes it return [False] there; past the bounds on the peer's fees,
    which a section without such bounds passes as soon as there is channel
    info, it asks for the node info, whatever the section holds, and a
    missing answer makes it return [False] there.  So without channel info
    or without node info the channel matcher never returns [True], and a
    section with a key in the chan namespace never matches. *)
Theorem C10_lookups_are_not_optional
    (w : World) (lnd : Lnd) (channel : Channel) (config : section) :
  (outcome (chan_upto_balances w channel config) = Ok true ->
     In (GetChanInfo (chan_id channel))
        (trace (Policies.match_by_chan w lnd channel config)) /\
     (lnd_chan_info lnd (chan_id channel) = None ->
        Policies.match_by_chan w lnd channel config =
        (trace (chan_upto_balances w channel config) ++ [GetChanInfo (chan_id channel)],
         Ok false))) /\
  (forall ci,
     outcome (chan_upto_balances w channel config) = Ok true ->
     lnd_chan_info lnd (chan_id channel) = Some ci ->
     has config "chan.min_base_fee_msat" = false ->
     has config "chan.max_base_fee_msat" = false ->
     has config "chan.min_fee_ppm" = false ->
     has config "chan.max_fee_ppm" = false ->
     outcome (chan_upto_peer w lnd channel config) = Ok true) /\
  (outcome (chan_upto_peer w lnd channel config) = Ok true ->
     In GetInfo (trace (Policies.match_by_chan w lnd channel config)) /\
     (lnd_info lnd = None ->
        Policies.match_by_chan w lnd channel config =
        (trace (chan_upto_peer w lnd channel config) ++ [GetInfo], Ok false))) /\
  (lnd_chan_info lnd (chan_id channel) = None \/ lnd_info lnd = None ->
     outcome (Policies.match_by_chan w lnd channel config) <> Ok true /\
     (has_namespace "chan" config = true ->
        forall policy,
          outcome (Policies.eval_matchers w lnd channel policy config) <> Ok true)).
Proof.
  split; [|split; [|split]].
  - intros Hupto. rewrite match_by_chan_from_balances, (and_then_passes _ _ Hupto).
    split.
    + cbn [trace fst]. apply in_or_app. right.
      destruct (chan_peer_calls lnd channel config
                  (Policies.chan_age w lnd channel config
                     (Policies.chan_activity lnd channel config))) as [t ->].
      by left.
    + intros Habs. by rewrite (chan_peer_absent _ _ _ _ Habs).
  - intros ci Hupto Hci H1 H2 H3 H4.
    rewrite chan_upto_peer_eq, (and_then_passes _ _ Hupto).
    by rewrite (chan_peer_without_fee_bounds _ _ _ ci).
  - intros Hupto. rewrite match_by_chan_from_peer, (and_then_passes _ _ Hupto).
    split.
    + cbn [trace fst]. apply in_or_app. right.
      destruct (chan_age_calls w lnd channel config
                  (Policies.chan_activity lnd channel config)) as [t ->].
      by left.
    + intros Habs. by rewrite (chan_age_absent _ _ _ _ _ Habs).
  - intros Habs.
    assert (Hchan : outcome (Policies.match_by_chan w lnd channel config) <> Ok true).
    { intros H. destruct Habs as [Habs|Habs].
      - by apply (match_by_chan_needs_chan_info _ _ _ _ H).
      - by apply (match_by_chan_needs_info _ _ _ _ H). }
    split; [exact Hchan|]. intros Hns policy.
    apply (eval_namespaces_never _ _ _ _ _ "chan").
    + by apply has_namespace_In.
    + rewrite matcher_map_chan. by intros f [= <-].
Qed.

(** The sample channel against a capacity bound, on a node whose channel
    graph does not know the channel: no fee, age or activity criterion is
    configured, and the policy does not match. *)
Lemma C10_witness :
  Policies.match_by_chan Sample.world Sample.lnd_without_chan_info Sample.channel
    Sample.section_capacity =
  ([GetChanInfo (chan_id Sample.channel)], Ok false).
Proof.
  exact (proj2 (proj1 (C10_lookups_are_not_optional
           Sample.world Sample.lnd_without_chan_info Sample.channel
           Sample.section_capacity) eq_refl) eq_refl).
Defined.

(** ** Unknown namespaces and unknown options *)

Lemma split_nonempty (d : ascii) (s : string) :
  exists h t, split d s = h :: t.
Proof.
  induction s as [|c r (h & t & IH)]; cbn [split]; [eauto|].
  destruct (Ascii.eqb c d); [eauto|]. rewrite IH. eauto.
Qed.




Section UnknownOptions.

Variable w : World.
Variable lnd : Lnd.
Variable channel : Channel.
Variable config : section.



End UnknownOptions.

Section UnknownSchema.

Variable w : World.
Variable lnd : Lnd.
Variable channel : Channel.
Variable policy : string.
Variable config : section.



End UnknownSchema.




(** ** Range checks *)

Lemma guard_iff (c k : M bool) :
  outcome (return_False_when c ;; k) = Ok true <->
  outcome c = Ok false /\ outcome k = Ok true.
Proof.
  split; [apply outcome_return_False_if|]. intros [Hc Hk].
  unfold return_False_if. by rewrite outcome_bind, Hc.
Qed.

Lemma Ok_negb_false (b : bool) : @Ok bool (negb b) = Ok false <-> b = true.
Proof. destruct b; split; intros H; done. Qed.

Section RangeChecks.

Variable config : section.
Variable key : string.

Ltac open_accessor conv :=
  unfold has, getint, getfloat, get;
  destruct (sec_get config key) as [v|]; [|done];
  cbn [or_raise]; rewrite bind_ret;
  destruct (conv v) as [b|]; cbn [or_raise];
  [rewrite bind_ret; cbn [ret outcome snd] | rewrite bind_raise; done].

Lemma min_int_fails_spec (x : Z) :
  outcome (Policies.min_int_fails config key x) = Ok false <->
  min_holds config key x = true.
Proof.
  unfold Policies.min_int_fails, min_holds. open_accessor py_int.
  apply Ok_negb_false.
Qed.

Lemma max_int_fails_spec (x : Z) :
  outcome (Policies.max_int_fails config key x) = Ok false <->
  max_holds config key x = true.
Proof.
  unfold Policies.max_int_fails, max_holds. open_accessor py_int.
  rewrite Z.geb_leb. apply Ok_negb_false.
Qed.

Lemma above_max_spec (x : Z) :
  outcome (Policies.above_max config key x) = Ok false <->
  max_holds config key x = true.
Proof.
  unfold Policies.above_max, max_holds. open_accessor py_int.
  rewrite Z.gtb_ltb, Z.ltb_antisym. apply Ok_negb_false.
Qed.

Lemma below_min_spec (x : Z) :
  outcome (Policies.below_min config key x) = Ok false <->
  min_holds config key x = true.
Proof.
  unfold Policies.below_min, min_holds. open_accessor py_int.
  rewrite Z.ltb_antisym. apply Ok_negb_false.
Qed.

Lemma min_float_fails_spec (x : float) :
  outcome (Policies.min_float_fails config key x) = Ok false <->
  min_ratio_holds config key x = true.
Proof.
  unfold Policies.min_float_fails, min_ratio_holds. open_accessor py_float.
  apply Ok_negb_false.
Qed.

Lemma max_float_fails_spec (x : float) :
  outcome (Policies.max_float_fails config key x) = Ok false <->
  max_ratio_holds config key x = true.
Proof.
  unfold Policies.max_float_fails, max_ratio_holds. open_accessor py_float.
  apply Ok_negb_false.
Qed.

(** At the bound itself. *)
Lemma min_holds_at_bound (v : string) (b : Z) :
  sec_get config key = Some v -> py_int v = Some b -> min_holds config key b = true.
Proof. intros Hv Hb. unfold min_holds. rewrite Hv, Hb. apply Z.leb_refl. Qed.

Lemma max_holds_at_bound (v : string) (b : Z) :
  sec_get config key = Some v -> py_int v = Some b -> max_holds config key b = true.
Proof. intros Hv Hb. unfold max_holds. rewrite Hv, Hb. apply Z.leb_refl. Qed.

Lemma float_eqb_leb (x y : float) : float_eqb x y = true -> float_leb x y = true.
Proof.
  unfold float_eqb, float_leb, SFeqb, SFleb.
  by destruct (SFcompare x y) as [[| |]|].
Qed.

Lemma min_ratio_holds_at_bound (v : string) (b x : float) :
  sec_get config key = Some v -> py_float v = Some b ->
  float_eqb b x = true -> min_ratio_holds config key x = true.
Proof.
  intros Hv Hb Heq. unfold min_ratio_holds. rewrite Hv, Hb. by apply float_eqb_leb.
Qed.

Lemma max_ratio_holds_at_bound (v : string) (b x : float) :
  sec_get config key = Some v -> py_float v = Some b ->
  float_eqb x b = true -> max_ratio_holds config key x = true.
Proof.
  intros Hv Hb Heq. unfold max_ratio_holds. rewrite Hv, Hb. by apply float_eqb_leb.
Qed.

End RangeChecks.

Lemma outcome_guard_passes (c k : M bool) :
  outcome c = Ok false -> outcome (return_False_when c ;; k) = outcome k.
Proof. intros H. unfold return_False_if. by rewrite outcome_bind, H. Qed.

Lemma truediv_pure (a b : Z) :
  Policies.truediv a b = ([], outcome (Policies.truediv a b)).
Proof.
  unfold Policies.truediv. destruct (b =? 0); [reflexivity|].
  by destruct (is_infinity _).
Qed.

Ltac bounds_iff :=
  rewrite ?guard_iff, ?min_int_fails_spec, ?max_int_fails_spec,
    ?min_float_fails_spec, ?max_float_fails_spec, ?above_max_spec, ?below_min_spec,
    ?andb_true_iff.

Section MatcherBounds.

Variable w : World.
Variable lnd : Lnd.
Variable channel : Channel.
Variable config : section.

Lemma match_by_node_bounds :
  outcome (Policies.check_keys "node" Policies.accepted_node (keys config)) = Ok tt ->
  outcome (Policies.node_id_fails w channel config) = Ok false ->
  outcome (Policies.match_by_node w lnd channel config) = Ok true <->
  node_bounds_hold config (lnd_node_info lnd (remote_pubkey channel)) = true.
Proof.
  intros Hkeys Hid. unfold Policies.match_by_node, Policies.get_node_info.
  rewrite outcome_bind, Hkeys, (outcome_guard_passes _ _ Hid).
  rewrite bind_assoc, bind_emit, bind_ret. cbn [outcome snd].
  unfold node_bounds_hold. bounds_iff. cbn [ret outcome snd]. tauto.
Qed.

Lemma chan_balances_bounds (ratio : float) (k : M bool) :
  outcome (Policies.truediv (local_balance channel)
             (local_balance channel + remote_balance channel)) = Ok ratio ->
  outcome (Policies.chan_balances channel config k) = Ok true <->
  balances_hold channel config ratio = true /\ outcome k = Ok true.
Proof.
  intros Hratio. unfold Policies.chan_balances.
  rewrite truediv_pure, Hratio, bind_Ok. cbn [outcome snd].
  unfold balances_hold. bounds_iff. tauto.
Qed.

Lemma chan_peer_bounds (ci : ChanInfo) (k : M bool) :
  lnd_chan_info lnd (chan_id channel) = Some ci ->
  outcome (Policies.chan_peer lnd channel config k) = Ok true <->
  peer_fees_hold config (peer_policy lnd ci) = true /\ outcome k = Ok true.
Proof.
  intros Hci. unfold Policies.chan_peer, Policies.get_chan_info, Policies.get_own_pubkey.
  rewrite bind_assoc, bind_emit, bind_ret, Hci, bind_assoc, bind_emit, bind_ret.
  cbn [outcome snd]. cbn zeta. fold (peer_policy lnd ci).
  unfold peer_fees_hold. bounds_iff. tauto.
Qed.

Lemma chan_age_bounds (age : Z) (k : Z -> M bool) :
  channel_age w lnd channel = Some age ->
  outcome (Policies.chan_age w lnd channel config k) = Ok true <->
  age_holds config age = true /\ outcome (k age) = Ok true.
Proof.
  unfold channel_age, Policies.chan_age, Policies.get_info.
  rewrite bind_assoc, bind_emit, bind_ret. cbn [outcome snd].
  destruct (lnd_info lnd) as [info|]; [|discriminate].
  destruct (lnd_to_cl_scid w (chan_id channel)) as [[block tx] output].
  intros [= <-]. unfold age_holds. bounds_iff. tauto.
Qed.

Lemma chan_activity_bounds (age : Z) :
  outcome (Policies.chan_activity lnd channel config age) = Ok true <->
  activity_holds lnd channel config age = true.
Proof.
  unfold Policies.chan_activity, activity_holds, has, get.
  destruct (sec_get config "chan.activity_period") as [period|]; [|done].
  cbn [or_raise]. rewrite bind_ret, outcome_bind.
  destruct (outcome (Policies.parse_activity_period period)) as [seconds|e]; [|done].
  unfold Policies.get_forward_history. rewrite bind_assoc, bind_emit, bind_ret.
  cbn [outcome snd]. rewrite andb_true_iff, Z.leb_antisym.
  destruct (age * 10 * 60 <? seconds); cbn [negb].
  - split; [discriminate | intros [? _]; discriminate].
  - unfold forwards_hold. bounds_iff. cbn [ret outcome snd]. tauto.
Qed.

(** The channel matcher past the identity criteria: it says yes exactly
    when every configured bound holds. *)
Lemma match_by_chan_bounds (ratio : float) (ci : ChanInfo) (age : Z) :
  outcome (chan_upto_identity w channel config) = Ok true ->
  outcome (Policies.truediv (local_balance channel)
             (local_balance channel + remote_balance channel)) = Ok ratio ->
  lnd_chan_info lnd (chan_id channel) = Some ci ->
  channel_age w lnd channel = Some age ->
  outcome (Policies.match_by_chan w lnd channel config) = Ok true <->
  balances_hold channel config ratio = true /\
  peer_fees_hold config (peer_policy lnd ci) = true /\
  age_holds config age = true /\
  activity_holds lnd channel config age = true.
Proof.
  intros Hupto Hratio Hci Hage.
  rewrite match_by_chan_from_identity, (and_then_passes _ _ Hupto).
  cbn [outcome snd].
  rewrite (chan_balances_bounds ratio _ Hratio), (chan_peer_bounds ci _ Hci).
  rewrite (chan_age_bounds age _ Hage), chan_activity_bounds. tauto.
Qed.

End MatcherBounds.

(** C5: every numeric range check of the matchers is inclusive on both
    bounds.  The node matcher, once its key check and [node.id] criterion
    are passed, matches exactly when [min <= value <= max] holds for the
    channel count and the capacity of the peer, for the bounds that are
    configured.  The channel matcher, once its key check and identity
    criteria are passed, the ratio has a value and channel info and node
    info are there, matches exactly when the same holds for ratio, capacity,
    local and remote balance, the peer's base fee and fee rate, the age,
    and, when an activity period is configured, the htlc and sat counts.  A
    value equal to a configured bound satisfies the bound.  In particular
    the channel with balances 30 and 70 fails [chan.max_ratio: 0.25] and
    satisfies [chan.min_ratio: 0.25]. *)
Theorem C5_range_checks_are_inclusive :
  (forall (w : World) (lnd : Lnd) (channel : Channel) (config : section),
      outcome (Policies.check_keys "node" Policies.accepted_node (keys config)) = Ok tt ->
      outcome (Policies.node_id_fails w channel config) = Ok false ->
      outcome (Policies.match_by_node w lnd channel config) = Ok true <->
      node_bounds_hold config (lnd_node_info lnd (remote_pubkey channel)) = true) /\
  (forall (w : World) (lnd : Lnd) (channel : Channel) (config : section)
          (ratio : float) (ci : ChanInfo) (age : Z),
      outcome (chan_upto_identity w channel config) = Ok true ->
      outcome (Policies.truediv (local_balance channel)
                 (local_balance channel + remote_balance channel)) = Ok ratio ->
      lnd_chan_info lnd (chan_id channel) = Some ci ->
      channel_age w lnd channel = Some age ->
      outcome (Policies.match_by_chan w lnd channel config) = Ok true <->
      balances_hold channel config ratio = true /\
      peer_fees_hold config (peer_policy lnd ci) = true /\
      age_holds config age = true /\
      activity_holds lnd channel config age = true) /\
  (forall (config : section) (key v : string) (b : Z),
      sec_get config key = Some v -> py_int v = Some b ->
      min_holds config key b = true /\ max_holds config key b = true) /\
  (forall (config : section) (key v : string) (b x : float),
      sec_get config key = Some v -> py_float v = Some b ->
      (float_eqb b x = true -> min_ratio_holds config key x = true) /\
      (float_eqb x b = true -> max_ratio_holds config key x = true)) /\
  Policies.match_by_chan Sample.world Sample.lnd Sample.channel
    Sample.section_max_ratio = ([], Ok false) /\
  outcome (Policies.match_by_chan Sample.world Sample.lnd Sample.channel
             Sample.section_min_ratio) = Ok true.
Proof.
  split; [exact match_by_node_bounds|]. split; [exact match_by_chan_bounds|].
  split; [|split; [|split; reflexivity]].
  - intros config key v b Hv Hb.
    split; [by apply (min_holds_at_bound _ _ v) | by apply (max_holds_at_bound _ _ v)].
  - intros config key v b x Hv Hb.
    split; intros Heq;
      [by apply (min_ratio_holds_at_bound _ _ v b) | by apply (max_ratio_holds_at_bound _ _ v b)].
Qed.

(** The sample channel against sections that set every bound to the value
    the channel has: both matchers say yes. *)
Lemma C5_witness :
  outcome (Policies.match_by_node Sample.world Sample.lnd Sample.channel
             Sample.section_node_at_bounds) = Ok true /\
  outcome (Policies.match_by_chan Sample.world Sample.lnd Sample.channel
             Sample.section_chan_at_bounds) = Ok true.
Proof.
  split.
  - apply (proj1 C5_range_checks_are_inclusive
             Sample.world Sample.lnd Sample.channel Sample.section_node_at_bounds
             eq_refl eq_refl).
    reflexivity.
  - apply (proj1 (proj2 C5_range_checks_are_inclusive)
             Sample.world Sample.lnd Sample.channel Sample.section_chan_at_bounds
             Sample.ratio_30_100 Sample.info_of_chan 100000
             eq_refl eq_refl eq_refl eq_refl).
    repeat split.
Defined.

(** ** The pubkey list loader *)

(** C7, at the failing input: the list file [/etc/nodes] holds 66 times the
    letter z, which is no hexadecimal digit, and the loader returns that
    token as a pubkey, without a line on stderr. *)
Theorem C7_loader_accepts_non_hex_token :
  file_contents Sample.world "/etc/nodes" = Readable Sample.zs /\
  String.length Sample.zs = 66%nat /\
  forallb_str is_lower_hex Sample.zs = false /\
  read_nodelist Sample.world "file:///etc/nodes" = ([], Ok [Sample.zs]).
Proof. repeat split. Qed.

(** C10, as stated, fails for the node info: the sample channel passes the
    balance and capacity criteria, and the matcher returns without asking
    for the node info, on the sample node because the bound on the peer's
    fee rate fails, and on a node without channel info because of that. *)
Lemma C10_node_info_is_not_always_asked :
  outcome (chan_upto_balances Sample.world Sample.channel Sample.section_fee_floor)
    = Ok true /\
  Policies.match_by_chan Sample.world Sample.lnd Sample.channel Sample.section_fee_floor
    = ([GetChanInfo (chan_id Sample.channel); GetOwnPubkey], Ok false) /\
  outcome (chan_upto_balances Sample.world Sample.channel Sample.section_capacity)
    = Ok true /\
  Policies.match_by_chan Sample.world Sample.lnd_without_chan_info Sample.channel
    Sample.section_capacity
    = ([GetChanInfo (chan_id Sample.channel)], Ok false).
Proof. repeat split. Qed.

(** A list file that cannot be opened: the error stays in the channel. *)
Lemma missing_list_file_gives_no_policy :
  Policies.get_policy_for Sample.world Sample.lnd
    Sample.config_with_missing_list Sample.channel =
  ([Debug (ErrorEvaluating (chan_id Sample.channel) (OSError "/etc/missing"))], Ok None).
Proof. reflexivity. Qed.

(** What the loader returns in general: the entries the pattern accepts, in
    file order, with one line on stderr for every other entry that is not
    blank. *)

Lemma rstrip_last (s : string) (c : ascii) :
  last_char (rstrip s) = Some c -> isspace c = false.
Proof.
  induction s as [|c0 r IH]; [discriminate|]. cbn [rstrip].
  destruct (rstrip r) as [|c1 r1].
  - destruct (isspace c0) eqn:Hc0; [discriminate|]. by intros [= <-].
  - exact IH.
Qed.

Lemma append_cons (c : ascii) (t r : string) :
  String.append (String c t) r = String c (String.append t r).
Proof. reflexivity. Qed.

Lemma last_char_append_one (t : string) (c : ascii) :
  last_char (String.append t (String c EmptyString)) = Some c.
Proof.
  induction t as [|c0 t IH]; [reflexivity|]. rewrite append_cons.
  destruct (String.append t (String c EmptyString)) eqn:Ht; [discriminate IH|].
  rewrite <- IH. reflexivity.
Qed.

Lemma take_class_spec (f : ascii -> bool) (n : nat) :
  forall s t rest,
  take_class f n s = Some (t, rest) ->
  s = String.append t rest /\ String.length t = n /\ forallb_str f t = true.
Proof.
  induction n as [|n IH]; intros s t rest; cbn [take_class].
  - by intros [= <- <-].
  - destruct s as [|c r]; [discriminate|].
    destruct (f c) eqn:Hc; [|discriminate].
    destruct (take_class f n r) as [[t' rest']|] eqn:Hr; [|discriminate].
    intros [= <- <-]. destruct (IH _ _ _ Hr) as (-> & <- & Hall).
    rewrite append_cons. cbn [String.length forallb_str]. by rewrite Hc, Hall.
Qed.

Lemma take_class_all (f : ascii -> bool) (s : string) :
  forallb_str f s = true -> take_class f (String.length s) s = Some (s, EmptyString).
Proof.
  induction s as [|c r IH]; [reflexivity|]. cbn [forallb_str String.length take_class].
  intros H. apply andb_prop in H as [-> Hr]. by rewrite (IH Hr).
Qed.

Lemma append_empty_r (t : string) : String.append t EmptyString = t.
Proof. induction t as [|c t IH]; [reflexivity|]. by rewrite append_cons, IH. Qed.

Lemma length_append (t r : string) :
  String.length (String.append t r) = (String.length t + String.length r)%nat.
Proof.
  induction t as [|c t IH]; [reflexivity|]. rewrite append_cons.
  cbn [String.length]. by rewrite IH.
Qed.

(** On a token without a blank at its end, the pattern accepts exactly the
    tokens of 66 characters in 0-9 and a-z, and the match is the token. *)
Lemma match_pubkey_stripped (t : string) :
  (forall c, last_char t = Some c -> isspace c = false) ->
  match_pubkey t = if is_pubkey_token t then Some t else None.
Proof.
  intros Hlast. unfold match_pubkey, is_pubkey_token.
  destruct (Nat.eqb_spec (String.length t) 66) as [Hlen|Hlen]; cbn [andb].
  - destruct (forallb_str pubkey_char t) eqn:Hall.
    + rewrite <- Hlen, (take_class_all _ _ Hall). reflexivity.
    + destruct (take_class pubkey_char 66 t) as [[t' rest]|] eqn:Htake; [|reflexivity].
      destruct (take_class_spec _ _ _ _ _ Htake) as (-> & Hl & Hall').
      rewrite length_append, Hl in Hlen.
      destruct rest; [|cbn in Hlen; lia].
      rewrite append_empty_r in Hall. congruence.
  - destruct (take_class pubkey_char 66 t) as [[t' rest]|] eqn:Htake; [|reflexivity].
    destruct (take_class_spec _ _ _ _ _ Htake) as (-> & Hl & Hall').
    destruct (String.eqb_spec rest EmptyString) as [->|_].
    + rewrite append_empty_r in Hlen. contradiction.
    + destruct (String.eqb_spec rest (String LF EmptyString)) as [->|_]; [|reflexivity].
      pose proof (Hlast LF (last_char_append_one _ _)) as Hspace.
      vm_compute in Hspace. discriminate Hspace.
Qed.

Lemma match_pubkey_clean (raw_id : string) :
  match_pubkey (clean_raw_id raw_id) =
  if is_pubkey_token (clean_raw_id raw_id) then Some (clean_raw_id raw_id) else None.
Proof. apply match_pubkey_stripped. intros c. apply rstrip_last. Qed.

Lemma read_nodelist_loop_spec (url : string) (raw_ids : list string) :
  forall node_list,
  read_nodelist_loop url raw_ids node_list =
  (map (fun t => Debug (IgnoredPubkey t url))
       (List.filter is_ignored_token (map clean_raw_id raw_ids)),
   Ok (node_list ++ List.filter is_pubkey_token (map clean_raw_id raw_ids))).
Proof.
  induction raw_ids as [|raw_id rest IH]; intros node_list.
  - cbn. by rewrite app_nil_r.
  - cbn [read_nodelist_loop map List.filter]. rewrite match_pubkey_clean.
    unfold is_ignored_token at 1.
    destruct (is_pubkey_token (clean_raw_id raw_id)); cbn [negb andb].
    + by rewrite IH, <- app_assoc.
    + destruct (String.eqb (strip (clean_raw_id raw_id)) EmptyString); cbn [negb].
      * apply IH.
      * unfold debug. by rewrite bind_emit, IH.
Qed.

(** The pubkey list loader on a file that can be read. *)
Lemma read_nodelist_spec (w : World) (url text : string) :
  has_nul (remove "file://" url) = false ->
  file_contents w (remove "file://" url) = Readable text ->
  read_nodelist w url =
  (map (fun t => Debug (IgnoredPubkey t url))
       (List.filter is_ignored_token (tokens_of text)),
   Ok (List.filter is_pubkey_token (tokens_of text))).
Proof.
  intros Hnul Hfile. unfold read_nodelist, open_read. cbn zeta.
  rewrite Hnul, Hfile, bind_ret. apply read_nodelist_loop_spec.
Qed.

(** Every token of 66 lowercase hexadecimal characters is a token the
    pattern accepts; the converse fails at [Sample.zs]. *)
Lemma hex_token_is_pubkey_token (t : string) :
  String.length t = 66%nat -> forallb_str is_lower_hex t = true ->
  is_pubkey_token t = true.
Proof.
  intros Hlen Hhex. unfold is_pubkey_token. rewrite Hlen. cbn [Nat.eqb andb].
  clear Hlen. induction t as [|c t IH]; [reflexivity|].
  cbn [forallb_str] in *. apply andb_prop in Hhex as [Hc Ht].
  rewrite (IH Ht), andb_true_r. unfold is_lower_hex, pubkey_char, islower_az in *.
  destruct (isdigit c); [reflexivity|]. cbn [orb] in *.
  apply andb_prop in Hc as [H1 H2]. apply N.leb_le in H1, H2.
  apply andb_true_intro. split; apply N.leb_le; lia.
Qed.

(** The list file of the specification expands to its two keys, the
    comment left out and nothing written to stderr. *)
Lemma two_keys_file_gives_two_pubkeys (url : string) :
  read_nodelist_loop url (raw_ids_of Sample.two_keys_text) [] =
  ([], Ok [Sample.key_a; Sample.key_b]).
Proof. reflexivity. Qed.

(** * Further properties of the code *)

(** ** [Policy.apply] and the typed accessors *)

Lemma mask_provenance (s : section) :
  forall (c : gmap string string) (k v : string),
  Policy.mask c s !! k = Some v -> c !! k = Some v \/ In (k, v) s.
Proof.
  induction s as [|[k0 v0] s IH]; intros c k v H; [by left|].
  rewrite mask_cons in H. destruct (IH _ _ _ H) as [Hc|Hin]; [|right; by right].
  destruct (String.eqb_spec k0 k) as [->|Hne].
  - rewrite lookup_insert_eq in Hc. injection Hc as ->. right. by left.
  - rewrite lookup_insert_ne in Hc by done. by left.
Qed.

(** X1: what [apply] does to the collected configuration, for a section
    with unique keys.  A key of the section gets the section's value, every
    other key keeps what it had, so no key is ever lost; the call answers
    [True] exactly when the section has a non-empty [strategy], and only
    then are the name and the strategy handle set; applying the same
    section again changes nothing in the configuration. *)
Theorem X1_apply_overrides_and_keeps
    (self : Policy.t) (policy_name : string) (policy_config : section) :
  NoDup (keys policy_config) ->
  let after := fst (Policy.apply self policy_name policy_config) in
  (forall k,
      Policy.config after !! k =
      match sec_get policy_config k with
      | Some v => Some v
      | None => Policy.config self !! k
      end) /\
  (forall k, is_Some (Policy.config self !! k) -> is_Some (Policy.config after !! k)) /\
  snd (Policy.apply self policy_name policy_config) = Policy.strategy_of policy_config /\
  (Policy.strategy_of policy_config = false ->
     Policy.name after = Policy.name self /\
     Policy.strategy after = Policy.strategy self) /\
  (Policy.strategy_of policy_config = true ->
     Policy.name after = Some policy_name /\
     Policy.strategy after = Some Policy.StrategyDelegate_of_self) /\
  Policy.config (fst (Policy.apply after policy_name policy_config)) = Policy.config after.
Proof.
  intros Hnd after.
  assert (Hcfg : Policy.config after
                 = Policy.mask (Policy.config self) policy_config).
  { unfold after, Policy.apply. by destruct (Policy.strategy_of policy_config). }
  split; [|split; [|split; [|split; [|split]]]].
  - intros k. rewrite Hcfg. by apply mask_lookup.
  - intros k Hk. rewrite Hcfg. apply mask_is_Some. by left.
  - unfold Policy.apply. by destruct (Policy.strategy_of policy_config).
  - intros Hs. unfold after. by rewrite (apply_open _ _ _ Hs).
  - intros Hs. unfold after. by rewrite (apply_final _ _ _ Hs).
  - assert (Hagain : Policy.config (fst (Policy.apply after policy_name policy_config))
                     = Policy.mask (Policy.config after) policy_config).
    { unfold Policy.apply. by destruct (Policy.strategy_of policy_config). }
    rewrite Hagain. apply map_eq. intros k.
    rewrite (mask_lookup _ _ _ Hnd), Hcfg, (mask_lookup _ _ _ Hnd).
    by destruct (sec_get policy_config k).
Qed.

(** A section, applied to the empty policy. *)
Lemma X1_witness :
  Policy.config (fst (Policy.apply Policy.init "a" [("x", "1"); ("strategy", "s")]))
    !! "x" = Some "1".
Proof.
  exact (proj1 (X1_apply_overrides_and_keeps Policy.init "a"
                  [("x", "1"); ("strategy", "s")] ltac:(compute_done)) "x").
Defined.

Lemma py_boolean_nonempty (v : string) (b : bool) :
  py_boolean v = Some b -> String.eqb v EmptyString = false.
Proof. by destruct v. Qed.

(** X2: [getbool] is the truth value of the text, not its meaning.  It
    never raises; a missing key gives the default; a key that is present
    gives [True] unless its value is the empty string.  So every value that
    configparser's [getboolean], which the matchers use, reads as [False]
    (0, no, false, off) is read as [True] by [getbool]. *)
Theorem X2_getbool_is_truthiness
    (self : Policy.t) (key : string) (default : option bool) :
  PolicyAccessors.getbool self key default =
    ([], Ok match Policy.config self !! key with
            | None => default
            | Some v => Some (negb (String.eqb v EmptyString))
            end) /\
  (forall v,
      Policy.config self !! key = Some v ->
      py_boolean v = Some false ->
      PolicyAccessors.getbool self key default = ([], Ok (Some true))).
Proof.
  assert (H : PolicyAccessors.getbool self key default =
    ([], Ok match Policy.config self !! key with
            | None => default
            | Some v => Some (negb (String.eqb v EmptyString))
            end)).
  { unfold PolicyAccessors.getbool, PolicyAccessors._get.
    destruct (Policy.config self !! key); [by rewrite bind_ret | reflexivity]. }
  split; [exact H|]. intros v Hv Hb.
  by rewrite H, Hv, (py_boolean_nonempty _ _ Hb).
Qed.

(** A policy that was told [enabled = false]. *)
Lemma X2_witness :
  PolicyAccessors.getbool (PolicyAccessors.set Policy.init "enabled" "false")
    "enabled" None = ([], Ok (Some true)).
Proof.
  exact (proj2 (X2_getbool_is_truthiness
                  (PolicyAccessors.set Policy.init "enabled" "false") "enabled" None)
           "false" eq_refl eq_refl).
Defined.

Lemma apply_config (self : Policy.t) (n : string) (s : section) :
  Policy.config (fst (Policy.apply self n s)) = Policy.mask (Policy.config self) s.
Proof. unfold Policy.apply. by destruct (Policy.strategy_of s). Qed.

(** X3: [set] and the accessors.  A value that was set is what [get]
    returns, and [getint] converts it when it is read: the number for text
    that is an integer, [ValueError] otherwise.  Other keys read as before,
    with the default for a key that is missing, and name and strategy are
    untouched.  Between [set] and [apply] the later write wins: a section
    applied afterwards overrides the key if it has it, and a [set] after
    [apply] overrides the section. *)
Theorem X3_set_then_read
    (self : Policy.t) (key value : string) :
  (forall d, PolicyAccessors.get (PolicyAccessors.set self key value) key d
             = ([], Ok (Some value))) /\
  (forall d, PolicyAccessors.getint (PolicyAccessors.set self key value) key d =
             match py_int value with
             | Some n => ([], Ok (Some n))
             | None => ([], Raise (ValueError value))
             end) /\
  (forall k d dn, k <> key ->
      PolicyAccessors.get (PolicyAccessors.set self key value) k d
        = PolicyAccessors.get self k d /\
      PolicyAccessors.getint (PolicyAccessors.set self key value) k dn
        = PolicyAccessors.getint self k dn) /\
  (forall k d dn, Policy.config self !! k = None ->
      PolicyAccessors.get self k d = ([], Ok d) /\
      PolicyAccessors.getint self k dn = ([], Ok dn)) /\
  Policy.name (PolicyAccessors.set self key value) = Policy.name self /\
  Policy.strategy (PolicyAccessors.set self key value) = Policy.strategy self /\
  (forall n s v d, NoDup (keys s) -> sec_get s key = Some v ->
      PolicyAccessors.get (fst (Policy.apply (PolicyAccessors.set self key value) n s))
        key d = ([], Ok (Some v))) /\
  (forall n s d,
      PolicyAccessors.get (PolicyAccessors.set (fst (Policy.apply self n s)) key value)
        key d = ([], Ok (Some value))).
Proof.
  unfold PolicyAccessors.get, PolicyAccessors.getint, PolicyAccessors._get.
  split; [|split; [|split; [|split; [|split; [|split; [|split]]]]]].
  - intros d. cbn [PolicyAccessors.set Policy.config].
    by rewrite lookup_insert_eq, bind_ret.
  - intros d. cbn [PolicyAccessors.set Policy.config].
    rewrite lookup_insert_eq. by destruct (py_int value).
  - intros k d dn Hne. cbn [PolicyAccessors.set Policy.config].
    by rewrite lookup_insert_ne.
  - intros k d dn Hk. by rewrite Hk.
  - reflexivity.
  - reflexivity.
  - intros n s v d Hnd Hv.
    by rewrite apply_config, (mask_lookup _ _ _ Hnd), Hv, bind_ret.
  - intros n s d. cbn [PolicyAccessors.set Policy.config].
    by rewrite lookup_insert_eq, bind_ret.
Qed.

(** A fee that is set, then overridden by a section; and a fee set to 12
    after the separator US, which [getint] does not take for a number. *)
Lemma X3_witness :
  PolicyAccessors.get
    (fst (Policy.apply (PolicyAccessors.set Policy.init "fee_ppm" "10") "a"
            [("fee_ppm", "20")]))
    "fee_ppm" None = ([], Ok (Some "20")) /\
  PolicyAccessors.getint
    (PolicyAccessors.set Policy.init "fee_ppm" (String (ascii_of_N 31) "12"))
    "fee_ppm" None = ([], Raise (ValueError (String (ascii_of_N 31) "12"))).
Proof.
  split.
  - exact (proj1 (proj2 (proj2 (proj2 (proj2 (proj2 (proj2
             (X3_set_then_read Policy.init "fee_ppm" "10")))))))
             "a" [("fee_ppm", "20")] "20" None ltac:(compute_done) eq_refl).
  - exact (proj1 (proj2
             (X3_set_then_read Policy.init "fee_ppm" (String (ascii_of_N 31) "12")))
             None).
Defined.

(** ** What [get_policy_for] returns *)

Section ResolverFacts.

Variable w : World.
Variable lnd : Lnd.
Variable channel : Channel.

Lemma outcome_matches (n : string) (s : section) :
  outcome (Policies.eval_matchers w lnd channel n s) = Ok true ->
  matches w lnd channel (n, s) = true.
Proof. intros H. unfold matches. cbn [fst snd]. by rewrite H. Qed.

Lemma strategy_of_value (s : section) :
  Policy.strategy_of s = true ->
  exists v, sec_get s "strategy" = Some v /\ v <> EmptyString.
Proof.
  unfold Policy.strategy_of. destruct (sec_get s "strategy") as [v|]; [|discriminate].
  intros H. exists v. split; [reflexivity|]. intros ->. discriminate H.
Qed.

(** A scan that ends inside the list ends at a policy that matches and is
    final, and the policy it returns carries that name. *)
Lemma scan_final (ps : list (string * section)) :
  forall p0 p,
  outcome (Policies.scan w lnd channel ps p0) = Ok (Policies.Final p) ->
  exists n s,
    In (n, s) ps /\ matches w lnd channel (n, s) = true /\
    Policy.strategy_of s = true /\
    Policy.name p = Some n /\
    Policy.strategy p = Some Policy.StrategyDelegate_of_self /\
    (NoDup (keys s) -> Policy.config p !! "strategy" = sec_get s "strategy").
Proof.
  induction ps as [|[n s] ps IH]; intros p0 p; [discriminate|].
  rewrite scan_cons, outcome_bind.
  destruct (outcome (Policies.eval_matchers w lnd channel n s)) as [[|]|e] eqn:Hm;
    [| |discriminate].
  - destruct (Policy.strategy_of s) eqn:Hs.
    + rewrite (apply_final _ _ _ Hs). intros [= <-].
      exists n, s. split; [by left|]. split; [by apply outcome_matches|].
      split; [exact Hs|]. split; [reflexivity|]. split; [reflexivity|].
      intros Hnd. cbn [Policy.config]. rewrite (mask_lookup _ _ _ Hnd).
      by destruct (strategy_of_value _ Hs) as (v & -> & _).
    + rewrite (apply_open _ _ _ Hs). intros H.
      destruct (IH _ _ H) as (n' & s' & Hin & Hrest).
      exists n', s'. split; [by right | exact Hrest].
  - intros H. destruct (IH _ _ H) as (n' & s' & Hin & Hrest).
    exists n', s'. split; [by right | exact Hrest].
Qed.

(** Whatever the scan carries came from where it started or from a section
    of a policy that matches. *)
Lemma scan_provenance (ps : list (string * section)) :
  forall p0 e p,
  outcome (Policies.scan w lnd channel ps p0) = Ok e ->
  e = Policies.Final p \/ e = Policies.Exhausted p ->
  forall k v, Policy.config p !! k = Some v ->
  Policy.config p0 !! k = Some v \/
  exists n s, In (n, s) ps /\ matches w lnd channel (n, s) = true /\ In (k, v) s.
Proof.
  induction ps as [|[n s] ps IH]; intros p0 e p.
  - cbn. intros [= <-] [[=]|[= <-]] k v Hk. by left.
  - rewrite scan_cons, outcome_bind.
    destruct (outcome (Policies.eval_matchers w lnd channel n s)) as [[|]|e'] eqn:Hm;
      [| |discriminate].
    + assert (Hstep : forall q k v,
                Policy.config q = Policy.mask (Policy.config p0) s ->
                Policy.config q !! k = Some v ->
                Policy.config p0 !! k = Some v \/
                exists n0 s0, In (n0, s0) ((n, s) :: ps) /\
                              matches w lnd channel (n0, s0) = true /\ In (k, v) s0).
      { intros q k v Hq Hk. rewrite Hq in Hk.
        destruct (mask_provenance _ _ _ _ Hk) as [H0|Hin]; [by left|].
        right. exists n, s. split; [by left|]. split; [by apply outcome_matches | exact Hin]. }
      destruct (Policy.strategy_of s) eqn:Hs.
      * rewrite (apply_final _ _ _ Hs). intros [= <-] [[= <-]|[=]] k v Hk.
        refine (Hstep _ k v _ Hk). reflexivity.
      * rewrite (apply_open _ _ _ Hs). intros He Hp k v Hk.
        destruct (IH _ _ _ He Hp k v Hk) as [H0|(n' & s' & Hin & Hrest)].
        -- refine (Hstep _ k v _ H0). reflexivity.
        -- right. exists n', s'. split; [by right | exact Hrest].
    + intros He Hp k v Hk.
      destruct (IH _ _ _ He Hp k v Hk) as [H0|(n' & s' & Hin & Hrest)]; [by left|].
      right. exists n', s'. split; [by right | exact Hrest].
Qed.

(** A policy that does not match can be left out of the list. *)
Lemma scan_without_rejected (p : string * section) (pre post : list (string * section)) :
  rejected w lnd channel p = true ->
  forall p0,
  outcome (Policies.scan w lnd channel (pre ++ p :: post) p0) =
  outcome (Policies.scan w lnd channel (pre ++ post) p0).
Proof.
  intros Hrej. induction pre as [|[n s] pre IH]; intros p0.
  - destruct p as [n s]. cbn [app]. rewrite scan_cons, outcome_bind.
    unfold rejected in Hrej. cbn [fst snd] in Hrej.
    by destruct (outcome (Policies.eval_matchers w lnd channel n s)) as [[|]|e].
  - rewrite <- !app_comm_cons, !scan_cons, !outcome_bind.
    destruct (outcome (Policies.eval_matchers w lnd channel n s)) as [[|]|e];
      [|apply IH|reflexivity].
    destruct (Policy.apply p0 n s) as [q [|]]; [reflexivity | apply IH].
Qed.

Lemma outcome_get_policy_for (cfg : Config) :
  outcome (Policies.get_policy_for w lnd cfg channel) =
  match outcome (Policies.scan w lnd channel (policies cfg) Policy.init) with
  | Ok (Policies.Final p) => Ok (Some p)
  | Ok (Policies.Exhausted p) => Ok (Policies.apply_default cfg p)
  | Raise e => Ok None
  end.
Proof.
  rewrite get_policy_for_cases. cbn zeta.
  by destruct (outcome (Policies.scan w lnd channel (policies cfg) Policy.init))
    as [[p|p]|e].
Qed.

Lemma apply_default_Some (cfg : Config) (p0 p : Policy.t) :
  Policies.apply_default cfg p0 = Some p ->
  exists d, default cfg = Some d /\ Policy.strategy_of d = true /\
            p = {| Policy.strategy := Some Policy.StrategyDelegate_of_self;
                   Policy.name := Some "default";
                   Policy.config := Policy.mask (Policy.config p0) d |}.
Proof.
  unfold Policies.apply_default, Policies.default_section.
  destruct (default cfg) as [[|kv d]|]; [discriminate| |discriminate].
  destruct (Policy.strategy_of (kv :: d)) eqn:Hs.
  - rewrite (apply_final _ _ _ Hs). intros [= <-]. by exists (kv :: d).
  - by rewrite (apply_open _ _ _ Hs).
Qed.

End ResolverFacts.

(** X4: a policy that [get_policy_for] returns is always a closed one.  Its
    strategy handle is set, and its name is that of a policy of the list
    that matches the channel and has a non-empty [strategy], or it is
    [default] and the default section has a non-empty [strategy]; when that
    section has unique keys, the [strategy] the policy reads is the
    section's and is not empty. *)
Theorem X4_returned_policy_is_closed
    (w : World) (lnd : Lnd) (cfg : Config) (channel : Channel) (p : Policy.t) :
  outcome (Policies.get_policy_for w lnd cfg channel) = Ok (Some p) ->
  Policy.strategy p = Some Policy.StrategyDelegate_of_self /\
  exists n s,
    Policy.name p = Some n /\
    closed_by w lnd channel cfg n s /\
    (NoDup (keys s) ->
       exists v, PolicyAccessors.get p "strategy" None = ([], Ok (Some v)) /\
                 v <> EmptyString).
Proof.
  rewrite outcome_get_policy_for.
  destruct (outcome (Policies.scan w lnd channel (policies cfg) Policy.init))
    as [[q|q]|e] eqn:Hscan; [| |discriminate].
  - intros [= <-].
    destruct (scan_final _ _ _ _ _ _ Hscan) as (n & s & Hin & Hm & Hs & Hn & Hst & Hv).
    split; [exact Hst|]. exists n, s. split; [exact Hn|].
    split; [split; [exact Hs | left; by split]|].
    intros Hnd. destruct (strategy_of_value _ Hs) as (v & Hget & Hne).
    exists v. split; [|exact Hne].
    unfold PolicyAccessors.get, PolicyAccessors._get.
    by rewrite (Hv Hnd), Hget, bind_ret.
  - intros [= H]. destruct (apply_default_Some _ _ _ H) as (d & Hd & Hs & ->).
    split; [reflexivity|]. exists "default", d. split; [reflexivity|].
    split; [split; [exact Hs | right; by split]|].
    intros Hnd. destruct (strategy_of_value _ Hs) as (v & Hget & Hne).
    exists v. split; [|exact Hne].
    unfold PolicyAccessors.get, PolicyAccessors._get. cbn [Policy.config].
    by rewrite (mask_lookup _ _ _ Hnd), Hget, bind_ret.
Qed.

(** The policy returned for the inheritance example. *)
Lemma X4_witness :
  exists n s,
    closed_by Sample.world Sample.lnd Sample.channel Sample.config_with_inheritance n s.
Proof.
  destruct (X4_returned_policy_is_closed
              Sample.world Sample.lnd Sample.config_with_inheritance Sample.channel
              _ eq_refl) as (_ & n & s & _ & Hclosed & _).
  exists n, s. exact Hclosed.
Defined.

(** X5: the configuration of a returned policy holds nothing but what the
    merged sections say.  Every key it has, with the value it has, is a
    pair of the section of a matching policy of the list or of the default
    section; the sections of policies that do not match leave no trace
    in it. *)
Theorem X5_returned_keys_come_from_merged_sections
    (w : World) (lnd : Lnd) (cfg : Config) (channel : Channel) (p : Policy.t) :
  outcome (Policies.get_policy_for w lnd cfg channel) = Ok (Some p) ->
  forall k v,
    Policy.config p !! k = Some v ->
    exists s, merged_from w lnd channel cfg s /\ In (k, v) s.
Proof.
  rewrite outcome_get_policy_for.
  destruct (outcome (Policies.scan w lnd channel (policies cfg) Policy.init))
    as [[q|q]|e] eqn:Hscan; [| |discriminate].
  - intros [= <-] k v Hk.
    destruct (scan_provenance _ _ _ _ _ _ q Hscan (or_introl eq_refl) k v Hk)
      as [H0|(n & s & Hin & Hm & Hkv)]; [exfalso; revert H0; cbn [Policy.init Policy.config]; by rewrite lookup_empty|].
    exists s. split; [left; by exists n | exact Hkv].
  - intros [= H] k v Hk. destruct (apply_default_Some _ _ _ H) as (d & Hd & Hs & ->).
    cbn [Policy.config] in Hk.
    destruct (mask_provenance _ _ _ _ Hk) as [Hq|Hkv]; [|exists d; split; [by right | exact Hkv]].
    destruct (scan_provenance _ _ _ _ _ _ q Hscan (or_intror eq_refl) k v Hq)
      as [H0|(n & s & Hin & Hm & Hkv)]; [exfalso; revert H0; cbn [Policy.init Policy.config]; by rewrite lookup_empty|].
    exists s. split; [left; by exists n | exact Hkv].
Qed.

(** The key [x] of the inheritance example comes from a merged section. *)
Lemma X5_witness :
  exists s,
    merged_from Sample.world Sample.lnd Sample.channel Sample.config_with_inheritance s /\
    In ("x", "1") s.
Proof.
  exact (X5_returned_keys_come_from_merged_sections
           Sample.world Sample.lnd Sample.config_with_inheritance Sample.channel
           _ eq_refl "x" "1" eq_refl).
Defined.

(** X6: the default policy inherits.  When every policy of the list is
    passed over and the default section has a non-empty [strategy], the
    policy returned is named [default] and its configuration is the
    sections of the matching policies merged in order, with the default
    section merged last. *)
Theorem X6_default_inherits_matched_sections
    (w : World) (lnd : Lnd) (cfg : Config) (channel : Channel) (d : section) :
  forallb (passed_over w lnd channel) (policies cfg) = true ->
  default cfg = Some d ->
  Policy.strategy_of d = true ->
  Policies.get_policy_for w lnd cfg channel =
  (trace (Policies.scan w lnd channel (policies cfg) Policy.init),
   Ok (Some {| Policy.strategy := Some Policy.StrategyDelegate_of_self;
               Policy.name := Some "default";
               Policy.config :=
                 merged (matched_sections w lnd channel (policies cfg) ++ [d]) |})).
Proof.
  intros Hpass Hd Hs.
  pose proof (scan_passed_over w lnd channel _ Policy.init Hpass) as Hscan.
  rewrite get_policy_for_cases. cbn zeta. rewrite Hscan.
  unfold Policies.apply_default, Policies.default_section. rewrite Hd.
  destruct d as [|kv d]; [discriminate Hs|].
  rewrite (apply_final _ _ _ Hs). cbn [Policy.config Policy.init].
  unfold merged. by rewrite fold_left_app.
Qed.

Lemma X6_witness :
  Policies.get_policy_for Sample.world Sample.lnd
    {| policies := [("a", [("x", "1")])];
       default := Some [("strategy", "static")] |} Sample.channel =
  ([], Ok (Some {| Policy.strategy := Some Policy.StrategyDelegate_of_self;
                   Policy.name := Some "default";
                   Policy.config := merged [[("x", "1")]; [("strategy", "static")]] |})).
Proof.
  exact (X6_default_inherits_matched_sections Sample.world Sample.lnd
           {| policies := [("a", [("x", "1")])];
              default := Some [("strategy", "static")] |} Sample.channel
           [("strategy", "static")] eq_refl eq_refl eq_refl).
Defined.

(** X7: a policy that is evaluated to a non-match has no part in the
    result.  Taking it out of the list, wherever it stands, leaves what
    [get_policy_for] returns unchanged. *)
Theorem X7_rejected_policy_can_be_left_out
    (w : World) (lnd : Lnd) (channel : Channel) (cfg cfg' : Config)
    (pre post : list (string * section)) (p : string * section) :
  policies cfg = pre ++ p :: post ->
  policies cfg' = pre ++ post ->
  default cfg' = default cfg ->
  rejected w lnd channel p = true ->
  outcome (Policies.get_policy_for w lnd cfg channel) =
  outcome (Policies.get_policy_for w lnd cfg' channel).
Proof.
  intros Hcfg Hcfg' Hdef Hrej.
  rewrite !outcome_get_policy_for, Hcfg, Hcfg'.
  rewrite (scan_without_rejected _ _ _ _ _ _ Hrej).
  unfold Policies.apply_default, Policies.default_section. by rewrite Hdef.
Qed.

Lemma X7_witness :
  outcome (Policies.get_policy_for Sample.world Sample.lnd
             Sample.config_with_default Sample.channel) =
  outcome (Policies.get_policy_for Sample.world Sample.lnd
             {| policies := []; default := default Sample.config_with_default |}
             Sample.channel).
Proof.
  exact (X7_rejected_policy_can_be_left_out Sample.world Sample.lnd Sample.channel
           Sample.config_with_default
           {| policies := []; default := default Sample.config_with_default |}
           [] [] ("a", [("chan.min_capacity", "1000000"); ("strategy", "x")])
           eq_refl eq_refl eq_refl eq_refl).
Defined.

(** ** More on the namespace dispatcher *)

Lemma split_dotless (key : string) :
  dotless key = true -> split "." key = [key].
Proof.
  unfold dotless. induction key as [|c r IH]; [reflexivity|].
  cbn [forallb_str split]. intros H. apply andb_prop in H as [Hc Hr].
  apply negb_true_iff in Hc. by rewrite Hc, (IH Hr).
Qed.

Lemma namespaces_of_dotless (ks : list string) :
  forallb dotless ks = true -> Policies.namespaces_of ks = [].
Proof.
  induction ks as [|k ks IH]; [reflexivity|]. cbn [forallb Policies.namespaces_of].
  intros H. apply andb_prop in H as [Hk Hks]. by rewrite (split_dotless _ Hk), (IH Hks).
Qed.

(** X8: a policy without criteria is a catch-all.  A section none of whose
    keys has a dot matches every channel, on every node, without a gateway
    call or a line on stderr; when it stands first in the list and has a
    non-empty [strategy], it is the policy returned for every channel, and
    nothing after it is evaluated. *)
Theorem X8_policy_without_criteria_matches_all
    (w : World) (lnd : Lnd) (cfg : Config) (channel : Channel)
    (n : string) (s : section) (rest : list (string * section)) :
  forallb dotless (keys s) = true ->
  Policies.eval_matchers w lnd channel n s = ([], Ok true) /\
  (policies cfg = (n, s) :: rest ->
   Policy.strategy_of s = true ->
   Policies.get_policy_for w lnd cfg channel =
   ([], Ok (Some {| Policy.strategy := Some Policy.StrategyDelegate_of_self;
                    Policy.name := Some n;
                    Policy.config := Policy.mask ∅ s |}))).
Proof.
  intros Hplain.
  assert (Heval : Policies.eval_matchers w lnd channel n s = ([], Ok true)).
  { unfold Policies.eval_matchers. by rewrite (namespaces_of_dotless _ Hplain). }
  split; [exact Heval|]. intros Hcfg Hs.
  rewrite get_policy_for_cases, Hcfg. cbn zeta.
  rewrite scan_cons, Heval, bind_Ok. cbn iota.
  by rewrite (apply_final _ _ _ Hs).
Qed.

Lemma X8_witness :
  Policies.eval_matchers Sample.world Sample.lnd Sample.empty_channel "a"
    [("strategy", "static"); ("fee_ppm", "10")] = ([], Ok true).
Proof.
  exact (proj1 (X8_policy_without_criteria_matches_all
                  Sample.world Sample.lnd Sample.config_with_default
                  Sample.empty_channel "a"
                  [("strategy", "static"); ("fee_ppm", "10")] [] eq_refl)).
Defined.

Lemma eval_namespaces_repeat (w : World) (lnd : Lnd) (channel : Channel)
    (policy : string) (config : section) (ns : string)
    (matcher : Channel -> section -> M bool) (t : list event) (n : nat) :
  Policies.matcher_map w lnd ns = Some matcher ->
  matcher channel config = (t, Ok true) ->
  Policies.eval_namespaces w lnd channel policy config (List.repeat ns n) true =
  (List.concat (List.repeat t n), Ok true).
Proof.
  intros Hmap Hm. induction n as [|n IH]; [reflexivity|].
  cbn [List.repeat Policies.eval_namespaces List.concat].
  by rewrite Hmap, Hm, bind_Ok, IH.
Qed.

(** X9: the dispatcher runs a matcher once for every key of its namespace,
    not once for the namespace.  For a section whose dotted keys are [n]
    keys of one known namespace and whose matcher answers [True] with the
    events [t], the dispatcher answers [True] with [t] repeated [n] times:
    every gateway call of the matcher is made [n] times. *)
Theorem X9_matcher_runs_once_per_key
    (w : World) (lnd : Lnd) (channel : Channel) (policy : string) (config : section)
    (ns : string) (matcher : Channel -> section -> M bool) (t : list event) (n : nat) :
  Policies.matcher_map w lnd ns = Some matcher ->
  Policies.namespaces_of (keys config) = List.repeat ns n ->
  matcher channel config = (t, Ok true) ->
  Policies.eval_matchers w lnd channel policy config =
  (List.concat (List.repeat t n), Ok true).
Proof.
  intros Hmap Hns Hm. unfold Policies.eval_matchers. rewrite Hns.
  by apply (eval_namespaces_repeat _ _ _ _ _ ns matcher).
Qed.

(** The four node bounds: the node info is asked for four times. *)
Lemma X9_witness :
  Policies.eval_matchers Sample.world Sample.lnd Sample.channel "a"
    Sample.section_node_at_bounds =
  ([GetNodeInfo "peer"; GetNodeInfo "peer"; GetNodeInfo "peer"; GetNodeInfo "peer"],
   Ok true).
Proof.
  exact (X9_matcher_runs_once_per_key Sample.world Sample.lnd Sample.channel "a"
           Sample.section_node_at_bounds "node"
           (Policies.match_by_node Sample.world Sample.lnd)
           [GetNodeInfo "peer"] 4 eq_refl eq_refl eq_refl).
Defined.

Lemma eval_namespaces_after_no (w : World) (lnd : Lnd) (channel : Channel)
    (policy : string) (config : section) (nss : list string) :
  Policies.eval_namespaces w lnd channel policy config nss false =
  (match List.find (fun ns => negb (known_namespace ns)) nss with
   | Some ns => [Debug (UnknownNamespace ns policy)]
   | None => []
   end, Ok false).
Proof.
  induction nss as [|ns nss IH]; [reflexivity|].
  cbn [Policies.eval_namespaces List.find].
  destruct (known_namespace ns) eqn:Hk; cbn [negb].
  - destruct (matcher_map_known w lnd ns Hk) as [[_ ->]|[_ ->]];
      by rewrite bind_ret, IH.
  - by rewrite (matcher_map_unknown w lnd ns Hk).
Qed.

(** X10: after the first [False] no matcher is run any more.  When the
    matcher of the first dotted key answers [False], the dispatcher answers
    [False]; what it does after that is at most the one warning for the
    first unknown namespace among the later keys.  No gateway call is made
    for them, no list file is read, and an error a later matcher would
    raise stays unseen. *)
Theorem X10_no_matcher_after_a_non_match
    (w : World) (lnd : Lnd) (channel : Channel) (policy : string) (config : section)
    (ns : string) (rest : list string)
    (matcher : Channel -> section -> M bool) (t : list event) :
  Policies.namespaces_of (keys config) = ns :: rest ->
  Policies.matcher_map w lnd ns = Some matcher ->
  matcher channel config = (t, Ok false) ->
  Policies.eval_matchers w lnd channel policy config =
  (t ++ match List.find (fun ns' => negb (known_namespace ns')) rest with
        | Some ns' => [Debug (UnknownNamespace ns' policy)]
        | None => []
        end,
   Ok false).
Proof.
  intros Hns Hmap Hm. unfold Policies.eval_matchers. rewrite Hns.
  cbn [Policies.eval_namespaces].
  by rewrite Hmap, Hm, bind_Ok, eval_namespaces_after_no.
Qed.

(** A capacity bound that fails, before an unknown node option. *)
Lemma X10_witness :
  Policies.eval_matchers Sample.world Sample.lnd Sample.channel "a"
    Sample.section_capacity_then_bogus = ([], Ok false).
Proof.
  exact (X10_no_matcher_after_a_non_match Sample.world Sample.lnd Sample.channel "a"
           Sample.section_capacity_then_bogus "chan" ["node"]
           (Policies.match_by_chan Sample.world Sample.lnd) []
           eq_refl eq_refl eq_refl).
Defined.

(** ** The key check *)

Lemma check_keys_cons (ns : string) (accepted ks : list string) (key : string) :
  Policies.check_keys ns accepted (key :: ks) =
  if key_passes ns accepted key
  then Policies.check_keys ns accepted ks
  else ([], Raise match split "." key with
                  | _ :: _ :: _ => UnknownProperty key
                  | _ => IndexError
                  end).
Proof.
  cbn [Policies.check_keys]. unfold key_passes.
  destruct (split "." key) as [|p0 [|p1 parts]] eqn:Hsplit.
  - by destruct (split_nonempty "." key) as (h & t & Hs); congruence.
  - cbn [nth_error or_raise]. rewrite bind_ret.
    by destruct (String.eqb p0 ns).
  - cbn [nth_error or_raise]. rewrite bind_ret.
    destruct (String.eqb p0 ns); [|reflexivity].
    cbn [nth_error or_raise]. rewrite bind_ret.
    by destruct (existsb (String.eqb p1) accepted).
Qed.

Lemma check_keys_first_failure (ns : string) (accepted pre post : list string)
    (key : string) :
  forallb (key_passes ns accepted) pre = true ->
  key_passes ns accepted key = false ->
  Policies.check_keys ns accepted (pre ++ key :: post) =
  ([], Raise match split "." key with
             | _ :: _ :: _ => UnknownProperty key
             | _ => IndexError
             end).
Proof.
  intros Hpre Hkey. induction pre as [|k pre IH].
  - cbn [app]. by rewrite check_keys_cons, Hkey.
  - cbn [forallb] in Hpre. apply andb_prop in Hpre as [Hk Hpre].
    rewrite <- app_comm_cons, check_keys_cons, Hk. by apply IH.
Qed.

(** X11: the key check of a matcher writes nothing and calls nothing, and
    it passes exactly when every key of the section passes: a key passes
    when its first part is not the namespace, or when it has a second part
    that is an accepted option.  So keys of other namespaces and plain keys
    are never looked at, and parts after the second are not checked.  When
    the check fails, the exception is that of the first key, in key order,
    that does not pass: the unknown-property error naming that key, or an
    index error when the key is the bare namespace. *)
Theorem X11_key_check_passes_iff (ns : string) (accepted ks : list string) :
  trace (Policies.check_keys ns accepted ks) = [] /\
  (outcome (Policies.check_keys ns accepted ks) = Ok tt <->
   forallb (key_passes ns accepted) ks = true) /\
  (forall pre key post,
      ks = pre ++ key :: post ->
      forallb (key_passes ns accepted) pre = true ->
      key_passes ns accepted key = false ->
      Policies.check_keys ns accepted ks =
      ([], Raise match split "." key with
                 | _ :: _ :: _ => UnknownProperty key
                 | _ => IndexError
                 end)).
Proof.
  split; [|split].
  - induction ks as [|key ks IH]; [reflexivity|].
    rewrite check_keys_cons. by destruct (key_passes ns accepted key).
  - induction ks as [|key ks IH]; [by split|].
    rewrite check_keys_cons. cbn [forallb].
    destruct (key_passes ns accepted key) eqn:Hk; cbn [andb]; [exact IH | by split].
  - intros pre key post -> Hpre Hkey. by apply check_keys_first_failure.
Qed.

(** A key with a third part, a key of another namespace and a plain key. *)
Lemma X11_witness :
  outcome (Policies.check_keys "chan" Policies.accepted_chan
             ["chan.min_capacity.x"; "node.bogus"; "strategy"]) = Ok tt.
Proof.
  exact (proj2 (proj1 (proj2 (X11_key_check_passes_iff "chan" Policies.accepted_chan
                  ["chan.min_capacity.x"; "node.bogus"; "strategy"]))) eq_refl).
Defined.

(** ** More on the node matcher *)

Lemma check_keys_trace (ns : string) (accepted ks : list string) :
  trace (Policies.check_keys ns accepted ks) = [].
Proof.
  induction ks as [|key ks IH]; [reflexivity|].
  rewrite check_keys_cons. by destruct (key_passes ns accepted key).
Qed.

Lemma check_keys_passed (ns : string) (accepted ks : list string) :
  outcome (Policies.check_keys ns accepted ks) = Ok tt ->
  Policies.check_keys ns accepted ks = ret tt.
Proof.
  intros H. by rewrite (M_eta (Policies.check_keys ns accepted ks)), check_keys_trace, H.
Qed.

Lemma getint_trace (config : section) (key : string) : trace (getint config key) = [].
Proof.
  unfold getint, get. destruct (sec_get config key) as [v|]; [|reflexivity].
  cbn [or_raise]. rewrite bind_ret. by destruct (py_int v).
Qed.

Lemma min_int_fails_trace (config : section) (key : string) (x : Z) :
  trace (Policies.min_int_fails config key x) = [].
Proof.
  unfold Policies.min_int_fails. destruct (has config key); [|reflexivity].
  rewrite trace_bind, getint_trace. by destruct (outcome (getint config key)).
Qed.

Lemma max_int_fails_trace (config : section) (key : string) (x : Z) :
  trace (Policies.max_int_fails config key x) = [].
Proof.
  unfold Policies.max_int_fails. destruct (has config key); [|reflexivity].
  rewrite trace_bind, getint_trace. by destruct (outcome (getint config key)).
Qed.

Lemma silent_guard (c k : M bool) :
  trace c = [] -> trace k = [] -> trace (return_False_when c ;; k) = [].
Proof.
  intros Hc Hk. unfold return_False_if. rewrite trace_bind, Hc.
  destruct (outcome c) as [[|]|e]; [reflexivity | exact Hk | reflexivity].
Qed.

(** X12: the node matcher asks for the node info once and no more, and it
    asks whether or not a bound is configured.  With the key check passed:
    when the [node.id] criterion is met (or there is none) the events of the
    matcher are those of that criterion and then the one call, whatever the
    four bounds are and whatever it returns; when the criterion is not met
    it returns [False] and the node info is not asked for. *)
Theorem X12_node_info_is_asked_once
    (w : World) (lnd : Lnd) (channel : Channel) (config : section) (t : list event) :
  outcome (Policies.check_keys "node" Policies.accepted_node (keys config)) = Ok tt ->
  (Policies.node_id_fails w channel config = (t, Ok false) ->
     trace (Policies.match_by_node w lnd channel config)
     = t ++ [GetNodeInfo (remote_pubkey channel)]) /\
  (Policies.node_id_fails w channel config = (t, Ok true) ->
     Policies.match_by_node w lnd channel config = (t, Ok false)).
Proof.
  intros Hkeys. unfold Policies.match_by_node.
  rewrite (check_keys_passed _ _ _ Hkeys), bind_ret.
  split; intros Hid; unfold return_False_if at 1; rewrite Hid, bind_Ok.
  - cbn [trace fst]. f_equal. unfold Policies.get_node_info.
    rewrite bind_assoc, bind_emit, bind_ret. cbn [trace fst]. f_equal.
    repeat (apply silent_guard;
            [first [apply min_int_fails_trace | apply max_int_fails_trace]|]).
    reflexivity.
  - cbn. by rewrite app_nil_r.
Qed.

(** A section with no node bound at all but a node key: one call. *)
Lemma X12_witness :
  trace (Policies.match_by_node Sample.world Sample.lnd Sample.channel
           [("node.id", "peer")]) = [GetNodeInfo "peer"].
Proof.
  exact (proj1 (X12_node_info_is_asked_once Sample.world Sample.lnd Sample.channel
                  [("node.id", "peer")] [] eq_refl) eq_refl).
Defined.

Lemma expand_node_ids_literal (w : World) (items : list string) :
  forallb is_literal items = true ->
  forall node_list,
  Policies.expand_node_ids w items node_list = ([], Ok (node_list ++ items)).
Proof.
  induction items as [|item items IH]; intros Hlit node_list.
  - cbn. by rewrite app_nil_r.
  - cbn [forallb] in Hlit. apply andb_prop in Hlit as [Hitem Hlit].
    cbn [Policies.expand_node_ids]. unfold is_literal in Hitem.
    apply negb_true_iff in Hitem. rewrite Hitem, (IH Hlit).
    by rewrite <- app_assoc.
Qed.

(** X13: with entries that are all taken as they stand, [node.id] is plain
    membership.  No file is opened and nothing is written; the criterion
    fails exactly when the peer's pubkey is not one of the entries, and
    then, with the key check passed, the node matcher returns [False]
    without a gateway call. *)
Theorem X13_node_id_is_membership
    (w : World) (lnd : Lnd) (channel : Channel) (config : section) (v : string) :
  sec_get config "node.id" = Some v ->
  forallb is_literal (list_converter w v) = true ->
  Policies.node_id_fails w channel config =
    ([], Ok (negb (existsb (String.eqb (remote_pubkey channel)) (list_converter w v)))) /\
  (outcome (Policies.check_keys "node" Policies.accepted_node (keys config)) = Ok tt ->
   existsb (String.eqb (remote_pubkey channel)) (list_converter w v) = false ->
   Policies.match_by_node w lnd channel config = ([], Ok false)).
Proof.
  intros Hv Hlit.
  assert (Hid : Policies.node_id_fails w channel config =
    ([], Ok (negb (existsb (String.eqb (remote_pubkey channel)) (list_converter w v))))).
  { unfold Policies.node_id_fails, has, getlist, get. rewrite Hv.
    cbn [or_raise]. rewrite !bind_ret, (expand_node_ids_literal _ _ Hlit).
    by rewrite bind_Ok. }
  split; [exact Hid|]. intros Hkeys Hmem.
  unfold Policies.match_by_node.
  rewrite (check_keys_passed _ _ _ Hkeys), bind_ret, Hid, Hmem. reflexivity.
Qed.

Lemma X13_witness :
  Policies.match_by_node Sample.world Sample.lnd Sample.channel
    [("node.id", "alice, bob")] = ([], Ok false).
Proof.
  exact (proj2 (X13_node_id_is_membership Sample.world Sample.lnd Sample.channel
                  [("node.id", "alice, bob")] "alice, bob" eq_refl eq_refl)
           eq_refl eq_refl).
Defined.

(** ** The channel id criterion and the list loaders *)

Lemma expand_chan_ids_literal (w : World) (items : list string) (ids : list Z) :
  Forall2 (fun item c => is_literal item = true /\ parse_channel_id w item = Some c)
          items ids ->
  forall chan_list,
  Policies.expand_chan_ids w items chan_list = ([], Ok (chan_list ++ ids)).
Proof.
  induction 1 as [|item c items ids [Hlit Hparse] _ IH]; intros chan_list.
  - cbn. by rewrite app_nil_r.
  - cbn [Policies.expand_chan_ids]. unfold is_literal in Hlit.
    apply negb_true_iff in Hlit. rewrite Hlit, Hparse. cbn [or_raise].
    by rewrite bind_ret, IH, <- app_assoc.
Qed.

Lemma expand_chan_ids_malformed (w : World) (good : list string) (ids : list Z)
    (bad : string) (rest : list string) :
  Forall2 (fun item c => is_literal item = true /\ parse_channel_id w item = Some c)
          good ids ->
  is_literal bad = true ->
  parse_channel_id w bad = None ->
  forall chan_list,
  Policies.expand_chan_ids w (good ++ bad :: rest) chan_list
  = ([], Raise (ChannelIdError bad)).
Proof.
  intros Hgood Hlit Hbad.
  induction Hgood as [|item c items ids' [Hl Hp] _ IH]; intros chan_list.
  - cbn [app Policies.expand_chan_ids]. unfold is_literal in Hlit.
    apply negb_true_iff in Hlit. by rewrite Hlit, Hbad.
  - rewrite <- app_comm_cons. cbn [Policies.expand_chan_ids]. unfold is_literal in Hl.
    apply negb_true_iff in Hl. rewrite Hl, Hp. cbn [or_raise].
    by rewrite bind_ret, IH.
Qed.

(** X14: [chan.id] with entries taken as they stand.  When every entry is
    a channel id the formatter accepts, the criterion is membership of the
    channel's id among them, and nothing is written or called.  One entry
    the formatter rejects makes the criterion raise, for that entry and
    whatever follows it, and with the key check passed the channel matcher
    raises before anything else is looked at: a malformed id written in the
    section is a hard error, not an ignored entry. *)
Theorem X14_chan_id_entries
    (w : World) (lnd : Lnd) (channel : Channel) (config : section) (v : string) :
  sec_get config "chan.id" = Some v ->
  (forall ids,
      Forall2 (fun item c => is_literal item = true /\ parse_channel_id w item = Some c)
              (list_converter w v) ids ->
      Policies.chan_id_fails w channel config =
      ([], Ok (negb (existsb (Z.eqb (chan_id channel)) ids)))) /\
  (forall good ids bad rest,
      list_converter w v = good ++ bad :: rest ->
      Forall2 (fun item c => is_literal item = true /\ parse_channel_id w item = Some c)
              good ids ->
      is_literal bad = true ->
      parse_channel_id w bad = None ->
      Policies.chan_id_fails w channel config = ([], Raise (ChannelIdError bad)) /\
      (outcome (Policies.check_keys "chan" Policies.accepted_chan (keys config)) = Ok tt ->
       Policies.match_by_chan w lnd channel config = ([], Raise (ChannelIdError bad)))).
Proof.
  intros Hv. unfold Policies.chan_id_fails, has, getlist, get. rewrite Hv.
  cbn [or_raise]. rewrite !bind_ret. split.
  - intros ids Hids. by rewrite (expand_chan_ids_literal _ _ _ Hids), bind_Ok.
  - intros good ids bad rest Hitems Hgood Hlit Hbad.
    assert (Hraise : (chan_list <- Policies.expand_chan_ids w (list_converter w v) [] ;;
                      ret (negb (existsb (Z.eqb (chan_id channel)) chan_list)))
                     = ([], Raise (ChannelIdError bad))).
    { by rewrite Hitems, (expand_chan_ids_malformed _ _ _ _ _ Hgood Hlit Hbad). }
    split; [exact Hraise|]. intros Hkeys.
    unfold Policies.match_by_chan, Policies.chan_identity, Policies.chan_id_fails,
      has, getlist, get.
    rewrite (check_keys_passed _ _ _ Hkeys), bind_ret, Hv. cbn [or_raise].
    rewrite !bind_ret. unfold return_False_if at 1. by rewrite Hraise.
Qed.

(** The section names a channel id that is no number. *)
Lemma X14_witness :
  Policies.match_by_chan Sample.world Sample.lnd Sample.channel
    [("chan.id", "123, 12x")] = ([], Raise (ChannelIdError "12x")).
Proof.
  refine (proj2 (proj2 (X14_chan_id_entries Sample.world Sample.lnd Sample.channel
                   [("chan.id", "123, 12x")] "123, 12x" eq_refl)
                   ["123"] [123] "12x" [] eq_refl _ eq_refl eq_refl) eq_refl).
  repeat constructor.
Defined.

(** X15: the pubkey list loader, in general.  The path it opens is the
    url with every [file://] removed.  It raises, and writes nothing, in
    three cases: ValueError when the path holds a NUL character, OSError
    when the file cannot be opened or read, UnicodeDecodeError when its
    bytes do not decode.  In every other case it returns, in file order
    and with repeats, the entries that are 66 characters of 0-9 and a-z, an
    entry being what is left of a piece between commas and line breaks once
    the comment and the blanks around it are cut; it writes one line for
    every other entry that is not blank, in file order, and none for a
    blank one. *)
Theorem X15_pubkey_loader (w : World) (url : string) :
  read_nodelist w url =
  let path := remove "file://" url in
  if has_nul path then ([], Raise (ValueError path))
  else match file_contents w path with
       | Inaccessible => ([], Raise (OSError path))
       | Undecodable => ([], Raise (UnicodeDecodeError path))
       | Readable text =>
           (map (fun t => Debug (IgnoredPubkey t url))
                (List.filter is_ignored_token (tokens_of text)),
            Ok (List.filter is_pubkey_token (tokens_of text)))
       end.
Proof.
  unfold read_nodelist, open_read. cbn zeta.
  destruct (has_nul (remove "file://" url)); [reflexivity|].
  destruct (file_contents w (remove "file://" url)) as [| |text]; [reflexivity..|].
  rewrite bind_ret. apply read_nodelist_loop_spec.
Qed.

(** A file with two keys, a comment, a blank line and a word. *)
Lemma X15_witness :
  read_nodelist Sample.world_with_keys "file:///etc/keys" =
  ([Debug (IgnoredPubkey "word" "file:///etc/keys")],
   Ok [Sample.key_a; Sample.key_b; Sample.key_a]).
Proof. exact (X15_pubkey_loader Sample.world_with_keys "file:///etc/keys"). Defined.

Lemma read_chanlist_loop_spec (w : World) (url : string) (raw_ids : list string) :
  forall chan_list,
  read_chanlist_loop w url raw_ids chan_list =
  (map (fun t => Debug (IgnoredChanId t url))
       (List.filter (is_ignored_chan_token w) (map clean_raw_id raw_ids)),
   Ok (chan_list ++ chan_ids_of w (map clean_raw_id raw_ids))).
Proof.
  induction raw_ids as [|raw_id rest IH]; intros chan_list.
  - cbn. by rewrite app_nil_r.
  - cbn [read_chanlist_loop map List.filter]. unfold chan_ids_of. cbn [flat_map].
    fold (chan_ids_of w (map clean_raw_id rest)).
    unfold is_ignored_chan_token at 1.
    destruct (parse_channel_id w (clean_raw_id raw_id)) as [c|].
    + by rewrite IH, <- app_assoc.
    + cbn [app].
      destruct (String.eqb (strip (clean_raw_id raw_id)) EmptyString); cbn [negb].
      * apply IH.
      * unfold debug. by rewrite bind_emit, IH.
Qed.

(** X16: the channel list loader, in general.  It raises in the three
    cases in which the pubkey list loader does: a NUL character in the
    path, a file that cannot be opened or read, bytes that do not decode.
    In every other case it returns, in file order and with repeats, the
    channel ids of the entries the formatter accepts, and writes one line
    for every other entry that is not blank; an entry the formatter rejects
    never stops the loader. *)
Theorem X16_chan_loader (w : World) (url : string) :
  read_chanlist w url =
  let path := remove "file://" url in
  if has_nul path then ([], Raise (ValueError path))
  else match file_contents w path with
       | Inaccessible => ([], Raise (OSError path))
       | Undecodable => ([], Raise (UnicodeDecodeError path))
       | Readable text =>
           (map (fun t => Debug (IgnoredChanId t url))
                (List.filter (is_ignored_chan_token w) (tokens_of text)),
            Ok (chan_ids_of w (tokens_of text)))
       end.
Proof.
  unfold read_chanlist, open_read. cbn zeta.
  destruct (has_nul (remove "file://" url)); [reflexivity|].
  destruct (file_contents w (remove "file://" url)) as [| |text]; [reflexivity..|].
  rewrite bind_ret. apply read_chanlist_loop_spec.
Qed.

(** A file with two ids, a comment and a malformed entry. *)
Lemma X16_witness :
  read_chanlist Sample.world_with_chans "file:///etc/chans" =
  ([Debug (IgnoredChanId "12x" "file:///etc/chans")], Ok [123; 456]).
Proof. exact (X16_chan_loader Sample.world_with_chans "file:///etc/chans"). Defined.

(** ** More on the activity window *)

Lemma parse_activity_period_pure (period : string) :
  Policies.parse_activity_period period =
  ([], outcome (Policies.parse_activity_period period)).
Proof.
  unfold Policies.parse_activity_period.
  destruct (py_int period); [reflexivity|].
  destruct (last_char period) as [c|]; [|reflexivity]. cbn [or_raise]. rewrite bind_ret.
  destruct (Policies.mulmap c); [|reflexivity]. cbn [or_raise]. rewrite bind_ret.
  by destruct (py_int (but_last period)).
Qed.

(** X17: a channel younger than the activity window never meets the
    activity criterion.  With a period of [seconds] and an age in blocks
    with [age * 600 < seconds], the activity part returns [False] whatever
    the forwards and their bounds are; the forward history has been asked
    for all the same.  So the channel matcher does not return [True]. *)
Theorem X17_young_channel_fails_activity
    (w : World) (lnd : Lnd) (channel : Channel) (config : section)
    (period : string) (seconds age : Z) :
  sec_get config "chan.activity_period" = Some period ->
  outcome (Policies.parse_activity_period period) = Ok seconds ->
  age * 10 * 60 < seconds ->
  Policies.chan_activity lnd channel config age =
    ([GetForwardHistory (chan_id channel) seconds], Ok false) /\
  (channel_age w lnd channel = Some age ->
   outcome (Policies.match_by_chan w lnd channel config) <> Ok true).
Proof.
  intros Hget Hparse Hyoung.
  assert (Hact : Policies.chan_activity lnd channel config age =
                 ([GetForwardHistory (chan_id channel) seconds], Ok false)).
  { unfold Policies.chan_activity, has, get. rewrite Hget. cbn [or_raise].
    rewrite bind_ret, parse_activity_period_pure, Hparse.
    change (@pair (list event) (result Z) [] (Ok seconds)) with (ret seconds).
    rewrite bind_ret.
    unfold Policies.get_forward_history. rewrite bind_assoc, bind_emit, bind_ret.
    apply Z.ltb_lt in Hyoung. by rewrite Hyoung. }
  split; [exact Hact|]. intros Hage Htrue.
  rewrite match_by_chan_from_age, Hage in Htrue.
  apply outcome_and_then in Htrue as [_ Htrue]. by rewrite Hact in Htrue.
Qed.

(** The sample channel is 100000 blocks old; a window of 60000001 seconds
    is one second too long. *)
Lemma X17_witness :
  Policies.chan_activity Sample.lnd Sample.channel
    [("chan.activity_period", "60000001")] 100000 =
  ([GetForwardHistory (chan_id Sample.channel) 60000001], Ok false).
Proof.
  exact (proj1 (X17_young_channel_fails_activity Sample.world Sample.lnd Sample.channel
                  [("chan.activity_period", "60000001")] "60000001" 60000001 100000
                  eq_refl eq_refl eq_refl)).
Defined.

(** X18: without [chan.activity_period] the htlc and sat bounds are dead
    options.  The channel matcher is then the same computation as its body
    up to line 242: the forward history is not asked for and none of
    [chan.min_htlcs_in] ... [chan.max_sats_out] is read, so such a bound,
    whatever its value, neither fails the match nor raises. *)
Theorem X18_forward_bounds_need_a_period
    (w : World) (lnd : Lnd) (channel : Channel) (config : section) :
  sec_get config "chan.activity_period" = None ->
  (forall age, Policies.chan_activity lnd channel config age = ([], Ok true)) /\
  Policies.match_by_chan w lnd channel config = chan_upto_age w lnd channel config.
Proof.
  intros Hnone.
  assert (Hact : forall age, Policies.chan_activity lnd channel config age = ret true).
  { intros age. unfold Policies.chan_activity, has. by rewrite Hnone. }
  split; [exact Hact|].
  rewrite match_by_chan_from_age.
  destruct (outcome (chan_upto_age w lnd channel config)) as [[|]|e] eqn:Hupto.
  - destruct (chan_upto_age_has_age _ _ _ _ Hupto) as [age ->].
    rewrite (and_then_passes _ _ Hupto), Hact. cbn [ret trace outcome fst snd].
    rewrite app_nil_r, <- Hupto. symmetry. apply M_eta.
  - rewrite (and_then_stops _ _ Hupto), <- Hupto. symmetry. apply M_eta.
  - rewrite (and_then_raises _ _ _ Hupto), <- Hupto. symmetry. apply M_eta.
Qed.

(** A bound on htlcs that is no number, and no period: the sample channel
    matches. *)
Lemma X18_witness :
  Policies.match_by_chan Sample.world Sample.lnd Sample.channel
    [("chan.min_htlcs_in", "many")] =
  ([GetChanInfo (chan_id Sample.channel); GetOwnPubkey; GetInfo], Ok true).
Proof.
  exact (eq_trans
           (proj2 (X18_forward_bounds_need_a_period Sample.world Sample.lnd
                     Sample.channel [("chan.min_htlcs_in", "many")] eq_refl))
           eq_refl).
Defined.

(** ** The activity period, on every token that ends in a unit *)

Lemma last_char_cons (a : ascii) (r : string) (c : ascii) :
  last_char r = Some c -> last_char (String a r) = Some c.
Proof. destruct r; [discriminate|]. by intros <-. Qed.

Lemma last_char_skip_blanks (s : string) (c : ascii) :
  last_char s = Some c -> number_space c = false ->
  last_char (skip_blanks s) = Some c.
Proof.
  intros Hlast Hc. induction s as [|a r IH]; [discriminate|]. cbn [skip_blanks].
  destruct (number_space a) eqn:Ha; [|exact Hlast].
  destruct r as [|b r]; [|by apply IH].
  cbn in Hlast. injection Hlast as ->. congruence.
Qed.

Lemma last_char_drop_blanks_at_end (s : string) (c : ascii) :
  last_char s = Some c -> number_space c = false ->
  last_char (drop_blanks_at_end s) = Some c.
Proof.
  intros Hlast Hc. induction s as [|a r IH]; [discriminate|].
  cbn [drop_blanks_at_end]. destruct r as [|b r].
  - cbn in Hlast. injection Hlast as ->. cbn [drop_blanks_at_end]. by rewrite Hc.
  - specialize (IH Hlast). destruct (drop_blanks_at_end (String b r)); [discriminate IH|].
    by apply last_char_cons.
Qed.

Lemma last_char_number_text (s : string) (c : ascii) :
  last_char s = Some c -> number_space c = false ->
  last_char (number_text s) = Some c.
Proof.
  intros Hlast Hc. unfold number_text.
  by apply last_char_drop_blanks_at_end; [apply last_char_skip_blanks|].
Qed.

Lemma digits_value_last (s : string) :
  forall acc prev n c,
  digits_value acc prev s = Some n ->
  last_char s = Some c ->
  isdigit c = true.
Proof.
  induction s as [|a r IH]; intros acc prev n c; [discriminate 2|].
  cbn [digits_value]. destruct (Ascii.eqb_spec a "_") as [->|Hne].
  - destruct prev; [|discriminate]. destruct r as [|b r]; [discriminate|].
    intros Hdv Hlast. by apply (IH _ _ _ _ Hdv).
  - unfold digit_val. destruct (isdigit a) eqn:Ha; [|discriminate].
    destruct r as [|b r].
    + intros _ [= <-]. exact Ha.
    + intros Hdv Hlast. by apply (IH _ _ _ _ Hdv).
Qed.

Lemma int_digits_last (t : string) (c : ascii) :
  last_char t = Some c -> isdigit c = false -> int_digits t = None.
Proof.
  intros Ht Hdig. unfold int_digits.
  destruct (digits_value 0 false t) as [n|] eqn:Hdv; [|reflexivity].
  rewrite (digits_value_last _ _ _ _ _ Hdv Ht) in Hdig. discriminate.
Qed.

(** Text that ends in a character that is no digit, no blank and no sign
    is no integer. *)
Lemma py_int_last (s : string) (c : ascii) :
  last_char s = Some c -> number_space c = false -> isdigit c = false ->
  c <> "+"%char -> c <> "-"%char ->
  py_int s = None.
Proof.
  intros Hlast Hsp Hdig Hplus Hminus.
  pose proof (last_char_number_text _ _ Hlast Hsp) as Hstrip.
  unfold py_int. destruct (number_text s) as [|a r]; [discriminate|].
  assert (Hall : forall t, last_char t = Some c -> int_digits t = None).
  { intros t Ht. by apply (int_digits_last t c). }
  assert (Hr : a = "+"%char \/ a = "-"%char -> int_digits r = None).
  { intros Ha. destruct r as [|b r].
    - cbn in Hstrip. injection Hstrip as <-. by destruct Ha.
    - by apply Hall. }
  destruct a as [[|] [|] [|] [|] [|] [|] [|] [|]];
    first [ exact (Hall _ Hstrip)
          | exact (Hr (or_introl eq_refl))
          | rewrite (Hr (or_intror eq_refl)); reflexivity ].
Qed.

Lemma but_last_append_one (t : string) (c : ascii) :
  but_last (String.append t (String c EmptyString)) = t.
Proof.
  induction t as [|a t IH]; [reflexivity|]. rewrite append_cons.
  destruct (String.append t (String c EmptyString)) as [|b u] eqn:Ht.
  - by destruct t.
  - change (String a (but_last (String b u)) = String a t). by rewrite IH.
Qed.

(** The four units of the source's table, with what the parser needs to
    know of each: its multiplier, and that it is no blank, digit or sign. *)
Lemma unit_of_table (c : ascii) (k : Z) :
  In (c, k) [("s", 1); ("m", 60); ("h", 3600); ("d", 86400)]%char ->
  Policies.mulmap c = Some k /\
  number_space c = false /\ isdigit c = false /\ c <> "+"%char /\ c <> "-"%char.
Proof.
  intros [[= <- <-]|[[= <- <-]|[[= <- <-]|[[= <- <-]|[]]]]]; by repeat split.
Qed.

(** X19: the parser on a token that ends in a unit.  The units are s, m, h
    and d, worth 1, 60, 3600 and 86400 seconds.  For any text [number], the
    token made of [number] and a unit worth [k] gives [n * k] when
    [int(number)] is [n]: blanks around the number, a sign and digit
    separators are allowed as [int] allows them, negative numbers included.
    When [int] refuses [number] (the empty text, a text with a character
    such as US that [str.strip] would cut and [int] does not, a text of more
    than 4300 digits), it raises [ValueError]. *)
Theorem X19_period_with_unit (number : string) (c : ascii) (k : Z) :
  In (c, k) [("s", 1); ("m", 60); ("h", 3600); ("d", 86400)]%char ->
  Policies.parse_activity_period (String.append number (String c EmptyString)) =
  match py_int number with
  | Some n => ([], Ok (n * k))
  | None => ([], Raise (ValueError number))
  end.
Proof.
  intros Hunit.
  destruct (unit_of_table _ _ Hunit) as (Hk & Hsp & Hdig & Hplus & Hminus).
  unfold Policies.parse_activity_period.
  rewrite (py_int_last _ c (last_char_append_one _ _) Hsp Hdig Hplus Hminus).
  rewrite last_char_append_one. cbn [or_raise]. rewrite bind_ret, Hk.
  cbn [or_raise]. rewrite bind_ret, but_last_append_one.
  by destruct (py_int number).
Qed.

(** Ten days before now, written with a sign and a separator; and five
    with the separator US before the unit, which is no number. *)
Lemma X19_witness :
  Policies.parse_activity_period "-1_0d" = ([], Ok (-864000)) /\
  Policies.parse_activity_period (String "5" (String (ascii_of_N 31) "m")) =
    ([], Raise (ValueError (String "5" (String (ascii_of_N 31) EmptyString)))).
Proof.
  split.
  - exact (X19_period_with_unit "-1_0" "d" 86400
             (or_intror (or_intror (or_intror (or_introl eq_refl))))).
  - exact (X19_period_with_unit (String "5" (String (ascii_of_N 31) EmptyString))
             "m" 60 (or_intror (or_introl eq_refl))).
Defined.

(** ** Bounds that cross *)

Lemma crossed_conflict (config : section) (kmin kmax : string) (x : Z) :
  crossed config kmin kmax = true ->
  min_holds config kmin x = true ->
  max_holds config kmax x = true ->
  False.
Proof.
  unfold crossed, min_holds, max_holds.
  destruct (sec_get config kmin) as [v1|]; [|discriminate].
  destruct (sec_get config kmax) as [v2|]; [|discriminate].
  destruct (py_int v1) as [b1|]; [|discriminate].
  destruct (py_int v2) as [b2|]; [|discriminate].
  intros H1 H2 H3. apply Z.ltb_lt in H1. apply Z.leb_le in H2, H3. lia.
Qed.

(** What a [True] of the channel matcher means. *)
Lemma match_by_chan_true (w : World) (lnd : Lnd) (channel : Channel) (config : section) :
  outcome (Policies.match_by_chan w lnd channel config) = Ok true ->
  exists ratio ci age,
    lnd_chan_info lnd (chan_id channel) = Some ci /\
    channel_age w lnd channel = Some age /\
    balances_hold channel config ratio = true /\
    peer_fees_hold config (peer_policy lnd ci) = true /\
    age_holds config age = true /\
    activity_holds lnd channel config age = true.
Proof.
  intros Htrue. pose proof Htrue as H.
  rewrite match_by_chan_from_identity in H. apply outcome_and_then in H as [Hupto H].
  assert (Hratio : exists ratio,
            outcome (Policies.truediv (local_balance channel)
                       (local_balance channel + remote_balance channel)) = Ok ratio).
  { unfold Policies.chan_balances in H. apply outcome_bind_Ok in H as (ratio & Hr & _).
    by exists ratio. }
  destruct Hratio as [ratio Hratio].
  destruct (lnd_chan_info lnd (chan_id channel)) as [ci|] eqn:Hci;
    [|by destruct (match_by_chan_needs_chan_info _ _ _ _ Htrue)].
  assert (Hage : exists age, channel_age w lnd channel = Some age).
  { pose proof (match_by_chan_needs_info _ _ _ _ Htrue) as Hinfo.
    unfold channel_age. destruct (lnd_info lnd) as [info|]; [|done].
    destruct (lnd_to_cl_scid w (chan_id channel)) as [[block tx] output]. eauto. }
  destruct Hage as [age Hage].
  exists ratio, ci, age. split; [reflexivity|]. split; [exact Hage|].
  by apply (match_by_chan_bounds w lnd channel config ratio ci age Hupto Hratio Hci Hage).
Qed.

Lemma match_by_node_true (w : World) (lnd : Lnd) (channel : Channel) (config : section) :
  outcome (Policies.match_by_node w lnd channel config) = Ok true ->
  node_bounds_hold config (lnd_node_info lnd (remote_pubkey channel)) = true.
Proof.
  intros Htrue. pose proof Htrue as H. unfold Policies.match_by_node in H.
  apply outcome_bind_Ok in H as ([] & Hkeys & H).
  apply outcome_return_False_if in H as [Hid _].
  by apply (match_by_node_bounds w lnd channel config Hkeys Hid).
Qed.

(** X20: bounds that cross shut the policy.  When a minimum and the maximum
    that goes with it are both configured as integers and the minimum is
    above the maximum, the matcher never returns [True], for no channel and
    no node state: this holds for capacity, local and remote balance, the
    peer's base fee and fee rate and the age in the channel matcher, and
    for the channel count and the capacity in the node matcher. *)
Theorem X20_crossed_bounds_never_match
    (w : World) (lnd : Lnd) (channel : Channel) (config : section) :
  (existsb (fun p => crossed config (fst p) (snd p)) chan_bound_pairs = true ->
   outcome (Policies.match_by_chan w lnd channel config) <> Ok true) /\
  (existsb (fun p => crossed config (fst p) (snd p)) node_bound_pairs = true ->
   outcome (Policies.match_by_node w lnd channel config) <> Ok true).
Proof.
  split; intros Hcross Htrue; apply existsb_exists in Hcross as ([kmin kmax] & Hin & Hx);
    cbn [fst snd] in Hx.
  - destruct (match_by_chan_true _ _ _ _ Htrue)
      as (ratio & ci & age & _ & _ & Hbal & Hfee & Hage & _).
    unfold balances_hold in Hbal. unfold peer_fees_hold in Hfee. unfold age_holds in Hage.
    repeat (apply andb_prop in Hbal as [Hbal ?]).
    repeat (apply andb_prop in Hfee as [Hfee ?]).
    apply andb_prop in Hage as [? ?].
    cbn in Hin.
    repeat (destruct Hin as [[= <- <-]|Hin]; [by eapply crossed_conflict|]).
    destruct Hin.
  - pose proof (match_by_node_true _ _ _ _ Htrue) as Hnode.
    unfold node_bounds_hold in Hnode.
    repeat (apply andb_prop in Hnode as [Hnode ?]).
    cbn in Hin.
    repeat (destruct Hin as [[= <- <-]|Hin]; [by eapply crossed_conflict|]).
    destruct Hin.
Qed.

(** A capacity window from 200 down to 100. *)
Lemma X20_witness :
  outcome (Policies.match_by_chan Sample.world Sample.lnd Sample.channel
             [("chan.min_capacity", "200"); ("chan.max_capacity", "100")]) <> Ok true.
Proof.
  exact (proj1 (X20_crossed_bounds_never_match Sample.world Sample.lnd Sample.channel
                  [("chan.min_capacity", "200"); ("chan.max_capacity", "100")])
           eq_refl).
Defined.
